(** * Kirg: a shallow embedding of the response-orchestration core

    The development follows the two source files:
    - [brain.py]: the completion call, the reactive decision with its text
      post-processor, and the proactive decision;
    - [main.py]: the client state, mention resolution, the message handler
      with its debounce token and response lock, the proactivity loop and
      the send loop.

    Python's [str] is a sequence of Unicode code points; it is modelled as
    [list N].  The case tables of Python's Unicode database are not part of
    the repository: they are taken as a parameter ([CaseTables]), and an
    instance covering the Basic Latin and Latin-1 blocks is used wherever a
    concrete run is evaluated. *)

From Stdlib Require Import ZArith NArith QArith List String Ascii Bool Lia DecimalString Sorted Permutation.
From stdpp Require Import base gmap list.
Import ListNotations.

Open Scope N_scope.

(** ** Strings *)

Definition char := N.
Definition str := list char.

(** An ASCII literal of the source, as code points. *)
Definition lit (s : string) : str :=
  List.map N_of_ascii (list_ascii_of_string s).

Definition NL : char := 10.
Definition SPACE : char := 32.
Definition COLON : char := 58.
Definition DOT : char := 46.
Definition COMMA : char := 44.
Definition DQUOTE : char := 34.
Definition SQUOTE : char := 39.

Definition str_eqb (a b : str) : bool := bool_decide (a = b).

(** [x in l] for a list or a set of strings. *)
Definition mem (x : str) (l : list str) : bool := List.existsb (str_eqb x) l.

(** [str.isspace] on one code point: the characters removed by [strip()]
    and separating the fields of [split()]. *)
Definition isspace (c : char) : bool :=
  ((9 <=? c) && (c <=? 13)) || ((28 <=? c) && (c <=? 32))
  || (c =? 133) || (c =? 160) || (c =? 5760)
  || ((8192 <=? c) && (c <=? 8202))
  || (c =? 8232) || (c =? 8233) || (c =? 8239) || (c =? 8287)
  || (c =? 12288).

Fixpoint lstrip (s : str) : str :=
  match s with
  | [] => []
  | c :: s' => if isspace c then lstrip s' else s
  end.

Definition rstrip (s : str) : str := rev (lstrip (rev s)).

(** [s.strip()] *)
Definition strip (s : str) : str := rstrip (lstrip s).

Fixpoint starts_with (p s : str) : bool :=
  match p, s with
  | [], _ => true
  | _ :: _, [] => false
  | a :: p', b :: s' => (a =? b) && starts_with p' s'
  end.

(** [p in s] for strings. *)
Fixpoint contains (p s : str) : bool :=
  starts_with p s ||
  match s with
  | [] => false
  | _ :: s' => contains p s'
  end.

(** [c in s] for a one-character [c]. *)
Definition has_char (c : char) (s : str) : bool := List.existsb (N.eqb c) s.

(** [s.split(sep)] for a one-character separator. *)
Fixpoint split_char (sep : char) (s : str) : list str :=
  match s with
  | [] => [[]]
  | c :: s' =>
      if c =? sep then [] :: split_char sep s'
      else match split_char sep s' with
           | h :: t => (c :: h) :: t
           | [] => [[c]]
           end
  end.

(** [s.split(sep, 1)] when [sep in s]: the text before the first [sep] and
    the text after it. *)
Fixpoint split_first (sep : char) (s : str) : str * str :=
  match s with
  | [] => ([], [])
  | c :: s' =>
      if c =? sep then ([], s')
      else let '(a, b) := split_first sep s' in (c :: a, b)
  end.

Fixpoint words_from (w : str) (s : str) : list str :=
  match s with
  | [] => match w with [] => [] | _ => [rev w] end
  | c :: s' =>
      if isspace c
      then match w with
           | [] => words_from [] s'
           | _ => rev w :: words_from [] s'
           end
      else words_from (c :: w) s'
  end.

(** [s.split()]: the maximal runs of non-whitespace characters. *)
Definition split_ws (s : str) : list str := words_from [] s.

(** [sep.join(l)] *)
Fixpoint join (sep : str) (l : list str) : str :=
  match l with
  | [] => []
  | [x] => x
  | x :: l' => x ++ sep ++ join sep l'
  end.

(** [s.replace(c, '')] for a one-character [c]. *)
Definition remove_char (c : char) (s : str) : str :=
  List.filter (fun x => negb (x =? c)) s.

(** [s.replace(old, new)] for a non-empty [old]: the leftmost
    non-overlapping occurrences are replaced.  [skip] counts the characters
    of an occurrence still to be passed over. *)
Fixpoint replace_from (skip : nat) (old new : str) (s : str) : str :=
  match s with
  | [] => []
  | c :: s' =>
      match skip with
      | S k => replace_from k old new s'
      | O =>
          if starts_with old s
          then new ++ replace_from (Nat.pred (length old)) old new s'
          else c :: replace_from O old new s'
      end
  end.

Definition replace (old new : str) (s : str) : str := replace_from O old new s.

(** ** Case tables

    [str_lower] is [str.lower]; [sre_lower] is the per-character lowering
    the regular-expression engine applies under [re.IGNORECASE]
    (to the subject, and to both sides of a back-reference); [sre_ignore p c]
    tells whether the literal [p] of an [re.IGNORECASE] pattern accepts the
    subject character [c]. *)
Class CaseTables := {
  str_lower : str -> str;
  sre_lower : char -> char;
  sre_ignore : char -> char -> bool
}.

(** The tables on the Basic Latin and Latin-1 blocks: A-Z and the letters
    U+00C0..U+00DE (without the multiplication sign U+00D7) have their
    lower-case form 32 code points higher; every other code point of the
    two blocks is its own lower-case form.  Code points above U+00FF are
    left alone, which is what Python does for the caseless ones. *)
Definition latin1_lower (c : char) : char :=
  if ((65 <=? c) && (c <=? 90)) || ((192 <=? c) && (c <=? 222) && negb (c =? 215))
  then c + 32 else c.

#[export] Instance latin1_tables : CaseTables := {|
  str_lower := List.map latin1_lower;
  sre_lower := latin1_lower;
  sre_ignore := fun p c => latin1_lower p =? latin1_lower c
|}.

(** ** brain.py *)

(** What a provider call and the reading of its answer's text do inside the
    [try] block: an [Exception] is raised, or the text is obtained. *)
Inductive api_result :=
| Raises
| Responds (text : str).

(** The fields of [KirgBrain] set by [__init__].  [gemini_model] stands for
    [gemini_model.generate_content] (prompt, temperature, max_output_tokens)
    and [client] for [client.chat.completions.create] (system message, user
    message, temperature, max_tokens); [None] when not configured. *)
Record KirgBrain := {
  provider : str;
  gemini_model : option (str -> Q -> Z -> api_result);
  client : option (str -> str -> Q -> Z -> api_result)
}.

Definition SKIP : str := lit "[SKIP]".

(** The canned line of the proactive path; the sixth letter of its last
    word is U+00E9. *)
Definition boredom_line : str := lit "slk que t" ++ [233] ++ lit "dio".

Definition common_slang : list str :=
  [lit "intankavel"; lit "slk"; lit "fds"; lit "mid"; lit "peak"].

(** [not s] for a string. *)
Definition is_empty (s : str) : bool :=
  match s with [] => true | _ :: _ => false end.

Section Brain.
Context `{CT : CaseTables}.

(** *** The think-tag pattern [<(think|thought)>.*?</\1>] under
    [re.DOTALL | re.IGNORECASE] *)

(** The literals [p] at the head of the subject: the matched text and what
    follows it. *)
Fixpoint match_ignorecase (p : str) (s : str) : option (str * str) :=
  match p, s with
  | [], _ => Some ([], s)
  | _ :: _, [] => None
  | a :: p', c :: s' =>
      if sre_ignore a c
      then match match_ignorecase p' s' with
           | Some (m, r) => Some (c :: m, r)
           | None => None
           end
      else None
  end.

(** The back-reference to the captured text [g] at the head of the
    subject: what follows it. *)
Fixpoint match_backref (g : str) (s : str) : option str :=
  match g, s with
  | [], _ => Some s
  | _ :: _, [] => None
  | a :: g', c :: s' =>
      if sre_lower a =? sre_lower c then match_backref g' s' else None
  end.

(** [</\1>] at the head of the subject. *)
Definition close_tag (g : str) (s : str) : option str :=
  match match_ignorecase (lit "</") s with
  | Some (_, r1) =>
      match match_backref g r1 with
      | Some r2 =>
          match match_ignorecase (lit ">") r2 with
          | Some (_, r3) => Some r3
          | None => None
          end
      | None => None
      end
  | None => None
  end.

(** [.*?</\1>]: the shortest stretch of arbitrary characters (newlines
    included) followed by the closing tag. *)
Fixpoint lazy_close (g : str) (s : str) : option str :=
  match close_tag g s with
  | Some r => Some r
  | None =>
      match s with
      | [] => None
      | _ :: s' => lazy_close g s'
      end
  end.

(** One alternative of the group: [<word>.*?</\1>] at the head of the
    subject. *)
Definition tag_span (word : str) (s : str) : option str :=
  match match_ignorecase (lit "<") s with
  | Some (_, r0) =>
      match match_ignorecase word r0 with
      | Some (g, r1) =>
          match match_ignorecase (lit ">") r1 with
          | Some (_, r2) => lazy_close g r2
          | None => None
          end
      | None => None
      end
  | None => None
  end.

(** The whole pattern at the head of the subject: the alternatives are
    tried in order, each with its continuation. *)
Definition think_span (s : str) : option str :=
  match tag_span (lit "think") s with
  | Some r => Some r
  | None => tag_span (lit "thought") s
  end.

(** [re.sub(pattern, '', s)]: the leftmost non-overlapping matches are
    deleted.  [skip] counts the characters of a match still to be passed
    over. *)
Fixpoint sub_think_from (skip : nat) (s : str) : str :=
  match s with
  | [] => []
  | c :: s' =>
      match skip with
      | S k => sub_think_from k s'
      | O =>
          match think_span s with
          | Some r => sub_think_from (length s' - length r) s'
          | None => c :: sub_think_from O s'
          end
      end
  end.

Definition sub_think (s : str) : str := sub_think_from O s.

(** *** [_generate_response] *)

(** The [try] block up to the provider's answer: the call made to the
    active provider and what it does, [None] when no provider is
    configured. *)
Definition provider_call (self : KirgBrain) (system_prompt user_prompt : str)
    (temperature : Q) (max_tokens : Z) : option api_result :=
  match (if str_eqb (provider self) (lit "gemini") then gemini_model self else None) with
  | Some generate_content =>
      let combined_prompt :=
        lit "SYSTEM INSTRUCTION: " ++ system_prompt ++ [NL; NL]
        ++ lit "USER INPUT: " ++ user_prompt in
      Some (generate_content combined_prompt temperature max_tokens)
  | None =>
      match client self with
      | Some create => Some (create system_prompt user_prompt temperature max_tokens)
      | None => None
      end
  end.

(** The answer is stripped and returned; an exception is caught and gives
    [None], as does the absence of a provider. *)
Definition _generate_response (self : KirgBrain) (system_prompt user_prompt : str)
    (temperature : Q) (max_tokens : Z) : option str :=
  match provider_call self system_prompt user_prompt temperature max_tokens with
  | Some (Responds text) => Some (strip text)
  | Some Raises => None
  | None => None
  end.

(** *** [decide_and_respond] *)

Definition reactive_system_prompt (my_name : str) (is_direct : bool) : str :=
  lit "You are " ++ my_name
  ++ lit ", a 17-year-old Discord native. You're a bit of a shut-in, gamer, and tech enthusiast." ++ [NL]
  ++ lit "PERSONALIDADE:" ++ [NL]
  ++ lit "- Casual, witty, uses internet slang (slk, mid, peak, intankavel, fds, peak)." ++ [NL]
  ++ lit "- Focus on responding naturally to one specific person in the conversation." ++ [NL]
  ++ lit "CHAT DYNAMICS:" ++ [NL]
  ++ lit "- DO NOT prefix messages with anyone's name (e.g., 'Ian: hi' or 'User: hi' are FORBIDDEN)." ++ [NL]
  ++ lit "- WRITE ONLY THE MESSAGE CONTENT." ++ [NL]
  ++ lit "- You can send 1 to 3 messages to complete a thought, separated by newlines." ++ [NL]
  ++ lit "- If you have nothing relevant to say, send only [SKIP]." ++ [NL]
  ++ lit "- Write in lowercase, no formal punctuation." ++ [NL]
  ++ lit "- NEVER repeat what was just said." ++ [NL]
  ++ lit "- Talk directly to people without repeating their names constantly."
  ++ (if is_direct
      then [NL] ++ lit "IMPORTANT: You were mentioned. DO NOT [SKIP], respond now."
      else []).

(** [history_text] of the loop over [chat_history]. *)
Fixpoint render_history (chat_history : list (str * str)) : str :=
  match chat_history with
  | [] => []
  | (author, content) :: h => author ++ lit ": " ++ content ++ [NL] ++ render_history h
  end.

(** [s.add(x)] on a set kept as a duplicate-free list. *)
Definition set_add (x : str) (s : list str) : list str :=
  if mem x s then s else s ++ [x].

(** [active_users] of the loop over [chat_history].  The source keeps a
    set; its elements are listed here in the order of their first
    insertion (only the text of the prompt depends on the order). *)
Definition collect_users (chat_history : list (str * str)) : list str :=
  fold_left (fun s '(author, _) => set_add author s) chat_history [].

(** [recent_contents] of the loop over [chat_history]. *)
Definition collect_contents (chat_history : list (str * str)) : list str :=
  fold_left (fun s '(_, content) => set_add (strip (str_lower content)) s) chat_history [].

Definition reactive_user_prompt (chat_history : list (str * str)) (my_name : str) : str :=
  let active_list := join (lit ", ") (collect_users chat_history) in
  lit "PARTICIPANTS: [" ++ active_list ++ lit "]" ++ [NL; NL]
  ++ lit "RECENT CHAT:" ++ [NL] ++ render_history chat_history ++ [NL] ++ lit "---" ++ [NL]
  ++ lit "Respond as " ++ my_name ++ lit ". Send ONLY your response, no names prefixing.".

(** "Filter hallucinated history": [None] is the [continue] of the loop,
    [Some l] is the value of [line] the body goes on with. *)
Definition filter_hallucinated (active_users : list str) (my_name : str) (line : str)
    : option str :=
  if has_char COLON line then
    let '(part0, part1) := split_first COLON line in
    let name_part := str_lower (strip part0) in
    if mem name_part (List.map str_lower active_users)
       || str_eqb name_part (str_lower my_name)
    then
      if str_eqb name_part (str_lower my_name)
      then Some (strip part1)
      else None
    else Some line
  else Some line.

(** [wc] of the slang loop. *)
Definition slang_key (w : str) : str :=
  remove_char COMMA (remove_char DOT (str_lower w)).

(** "Deduplicate slang": [clean_words], from [seen_slang] and the words
    still to be visited. *)
Fixpoint dedup_slang_from (seen_slang : list str) (words : list str) : list str :=
  match words with
  | [] => []
  | w :: ws =>
      let wc := slang_key w in
      if mem wc common_slang then
        if mem wc seen_slang then dedup_slang_from seen_slang ws
        else w :: dedup_slang_from (set_add wc seen_slang) ws
      else w :: dedup_slang_from seen_slang ws
  end.

Definition dedup_slang (words : list str) : list str := dedup_slang_from [] words.

(** [line_clean] of a line that passed the two filters. *)
Definition clean_line (line : str) : str :=
  remove_char SQUOTE (remove_char DQUOTE (join [SPACE] (dedup_slang (split_ws line)))).

(** The body of the loop over [lines]: [valid_msgs] after the iteration. *)
Definition line_step (active_users : list str) (my_name : str) (recent_contents : list str)
    (valid_msgs : list str) (raw_line : str) : list str :=
  let line := strip raw_line in
  if is_empty line || contains SKIP line then valid_msgs
  else
    match filter_hallucinated active_users my_name line with
    | None => valid_msgs
    | Some line =>
        if mem (strip (str_lower line)) recent_contents then valid_msgs
        else
          let line_clean := clean_line line in
          if is_empty line_clean then valid_msgs
          else if List.existsb
                    (fun v => str_eqb (str_lower line_clean) (str_lower v)) valid_msgs
          then valid_msgs
          else valid_msgs ++ [line_clean]
    end.

(** The post-processing of a non-empty answer of the provider. *)
Definition post_process (chat_history : list (str * str)) (my_name : str) (response : str)
    : option (list str) :=
  let response := strip (sub_think response) in
  if contains SKIP response then None
  else
    let lines := split_char NL response in
    let valid_msgs :=
      fold_left
        (line_step (collect_users chat_history) my_name (collect_contents chat_history))
        lines [] in
    match valid_msgs with
    | [] => None
    | _ :: _ => Some (firstn 3 valid_msgs)
    end.

Definition decide_and_respond (self : KirgBrain) (chat_history : list (str * str))
    (my_name : str) (is_direct : bool) : option (list str) :=
  let system_prompt := reactive_system_prompt my_name is_direct in
  let user_prompt := reactive_user_prompt chat_history my_name in
  let response := _generate_response self system_prompt user_prompt (7 # 10)%Q 150%Z in
  match response with
  | None => None
  | Some response =>
      if is_empty response then None
      else post_process chat_history my_name response
  end.

(** *** [decide_proactive_message] *)

Definition proactive_system_prompt (my_name : str) : str :=
  lit "You are " ++ my_name ++ lit ", 17. The chat is quiet and you are bored." ++ [NL]
  ++ lit "OBJECTIVE: Send a short message to start a conversation or vent about boredom." ++ [NL]
  ++ lit "TOPICS: Games, lag, bad ping, school, food, internet drama, or random thoughts." ++ [NL]
  ++ lit "STYLE: Casual, lowercase, discord slang (slk, fds, intankavel)." ++ [NL]
  ++ lit "RULES: NO greetings, speak directly, max 10 words.".

(** [chat_history[-5:]] *)
Definition last5 (chat_history : list (str * str)) : list (str * str) :=
  skipn (length chat_history - 5) chat_history.

Definition proactive_user_prompt (chat_history : list (str * str)) (my_name : str) : str :=
  lit "RECENT CHAT:" ++ [NL] ++ render_history (last5 chat_history) ++ [NL]
  ++ lit "---" ++ [NL]
  ++ lit "What would " ++ my_name ++ lit " say right now?".

Definition decide_proactive_message (self : KirgBrain) (chat_history : list (str * str))
    (my_name : str) : option (list str) :=
  let system_prompt := proactive_system_prompt my_name in
  let user_prompt := proactive_user_prompt chat_history my_name in
  let response := _generate_response self system_prompt user_prompt (9 # 10)%Q 60%Z in
  match response with
  | None => Some [boredom_line]
  | Some response =>
      if is_empty response || contains SKIP response then Some [boredom_line]
      else
        let response := strip (sub_think response) in
        Some [str_lower (remove_char SQUOTE (remove_char DQUOTE response))]
  end.

End Brain.

(** ** main.py *)

Definition HISTORY_LIMIT : nat := 12.

(** [deque(maxlen=HISTORY_LIMIT).append(x)]: the oldest entry leaves when
    the bound is exceeded. *)
Definition deque_append {A} (x : A) (d : list A) : list A :=
  let d' := d ++ [x] in skipn (length d' - HISTORY_LIMIT) d'.

(** The fields of a [discord.User] or [discord.Member] the client reads.
    [nick] is [None] when the attribute is absent or unset. *)
Record User := {
  user_id : Z;
  user_name : str;
  display_name : str;
  nick : option str;
  is_bot : bool;
  mention : str
}.

Record Guild := {
  get_member : Z -> option User;
  guild_me : User
}.

(** The fields of a [discord.Message] the client reads.  [guild] is [None]
    for a private message; [mentioned] is [self.user.mentioned_in(message)];
    [reference_author] is the author id of the cached message this one
    replies to, when there is one. *)
Record Message := {
  author : User;
  guild : option Guild;
  channel_id : Z;
  content : str;
  mentioned : bool;
  reference_author : option Z
}.

(** The keys of [chat_memories]: a channel id, or [f"dm_{author.id}"]. *)
Inductive memory_id :=
| ChannelKey (id : Z)
| DmKey (author_id : Z).

#[export] Instance memory_id_eq_dec : EqDecision memory_id.
Proof. solve_decision. Defined.

#[export] Instance memory_id_countable : Countable memory_id.
Proof.
  refine (inj_countable'
            (fun k => match k with ChannelKey i => inl i | DmKey i => inr i end)
            (fun s => match s with inl i => ChannelKey i | inr i => DmKey i end) _).
  intros []; reflexivity.
Defined.

(** The fields of [KirgClient].  Clock readings ([time.time()]) are
    rationals; [known_users] is a dictionary listed in insertion order. *)
Record KirgClient := {
  brain : KirgBrain;
  user : User;
  me_user : option User;
  target_channel_id : option Z;
  chat_memories : gmap memory_id (list (str * str));
  processing_lock : bool;
  known_users : list (str * str);
  channel_debounces : gmap Z Q;
  channel_mentions_pending : gmap Z bool;
  last_activity_time : Q;
  next_activity_trigger : Q
}.

Definition set_chat_memories (self : KirgClient) v : KirgClient :=
  {| brain := brain self; user := user self; me_user := me_user self;
     target_channel_id := target_channel_id self; chat_memories := v;
     processing_lock := processing_lock self; known_users := known_users self;
     channel_debounces := channel_debounces self;
     channel_mentions_pending := channel_mentions_pending self;
     last_activity_time := last_activity_time self;
     next_activity_trigger := next_activity_trigger self |}.

Definition set_processing_lock (self : KirgClient) v : KirgClient :=
  {| brain := brain self; user := user self; me_user := me_user self;
     target_channel_id := target_channel_id self; chat_memories := chat_memories self;
     processing_lock := v; known_users := known_users self;
     channel_debounces := channel_debounces self;
     channel_mentions_pending := channel_mentions_pending self;
     last_activity_time := last_activity_time self;
     next_activity_trigger := next_activity_trigger self |}.

Definition set_known_users (self : KirgClient) v : KirgClient :=
  {| brain := brain self; user := user self; me_user := me_user self;
     target_channel_id := target_channel_id self; chat_memories := chat_memories self;
     processing_lock := processing_lock self; known_users := v;
     channel_debounces := channel_debounces self;
     channel_mentions_pending := channel_mentions_pending self;
     last_activity_time := last_activity_time self;
     next_activity_trigger := next_activity_trigger self |}.

Definition set_channel_debounces (self : KirgClient) v : KirgClient :=
  {| brain := brain self; user := user self; me_user := me_user self;
     target_channel_id := target_channel_id self; chat_memories := chat_memories self;
     processing_lock := processing_lock self; known_users := known_users self;
     channel_debounces := v;
     channel_mentions_pending := channel_mentions_pending self;
     last_activity_time := last_activity_time self;
     next_activity_trigger := next_activity_trigger self |}.

Definition set_channel_mentions_pending (self : KirgClient) v : KirgClient :=
  {| brain := brain self; user := user self; me_user := me_user self;
     target_channel_id := target_channel_id self; chat_memories := chat_memories self;
     processing_lock := processing_lock self; known_users := known_users self;
     channel_debounces := channel_debounces self;
     channel_mentions_pending := v;
     last_activity_time := last_activity_time self;
     next_activity_trigger := next_activity_trigger self |}.

Definition set_last_activity_time (self : KirgClient) v : KirgClient :=
  {| brain := brain self; user := user self; me_user := me_user self;
     target_channel_id := target_channel_id self; chat_memories := chat_memories self;
     processing_lock := processing_lock self; known_users := known_users self;
     channel_debounces := channel_debounces self;
     channel_mentions_pending := channel_mentions_pending self;
     last_activity_time := v;
     next_activity_trigger := next_activity_trigger self |}.

Definition set_next_activity_trigger (self : KirgClient) v : KirgClient :=
  {| brain := brain self; user := user self; me_user := me_user self;
     target_channel_id := target_channel_id self; chat_memories := chat_memories self;
     processing_lock := processing_lock self; known_users := known_users self;
     channel_debounces := channel_debounces self;
     channel_mentions_pending := channel_mentions_pending self;
     last_activity_time := last_activity_time self;
     next_activity_trigger := v |}.

(** What a handler reads from outside the client while it runs up to its
    next suspension: the clock at the lines that read it, the draw of
    [random.uniform] for the proactivity interval, whether
    [get_channel] finds the channel, and whether the gateway accepts the
    line being sent. *)
Record readings := {
  clock_now : Q;
  uniform_minutes : Q;
  clock_schedule : Q;
  clock_token : Q;
  channel_found : bool;
  accepted : bool
}.

(** [d[k] = v] on a dictionary listed in insertion order. *)
Fixpoint dict_set (k v : str) (d : list (str * str)) : list (str * str) :=
  match d with
  | [] => [(k, v)]
  | (k', v') :: d' =>
      if str_eqb k k' then (k, v) :: d' else (k', v') :: dict_set k v d'
  end.

(** [d[k]] for a key of the dictionary. *)
Fixpoint dict_get (k : str) (d : list (str * str)) : option str :=
  match d with
  | [] => None
  | (k', v') :: d' => if str_eqb k k' then Some v' else dict_get k d'
  end.

(** [sorted(names, key=len, reverse=True)]: by decreasing length, names of
    equal length in their original order. *)
Fixpoint insert_by_len (x : str) (l : list str) : list str :=
  match l with
  | [] => [x]
  | y :: l' =>
      if (length y <=? length x)%nat then x :: l else y :: insert_by_len x l'
  end.

Definition sorted_by_len (names : list str) : list str :=
  fold_right insert_by_len [] names.

(** [f"<@{id}>"] *)
Definition mention_of_id (id : Z) : str :=
  lit "<@" ++ lit (NilZero.string_of_int (Z.to_int id)) ++ lit ">".

(** The phases of a decision-and-send cycle are shared by three callers;
    what follows the cycle depends on the caller. *)
Inductive cycle_kind :=
| Reactive     (* on_message, lines 245-256 *)
| Direct       (* _handle_dm *)
| Proactive.   (* proactivity_loop, lines 88-99 *)

(** The arguments and the loop variable of [_send_response_package].
    [sl_cycle] names the cycle the loop belongs to (it is not a value of
    the program); of [reply_to] only its truth value is kept. *)
Record send_loop := {
  sl_kind : cycle_kind;
  sl_cycle : nat;
  sl_response_list : list str;
  sl_i : nat;
  sl_my_name : str;
  sl_memory_id : memory_id;
  sl_reply_to : bool
}.

(** Where a task is suspended.  The event loop runs one task at a time and
    changes task only at an [await] that suspends.  The suspensions kept
    are the sleeps, the calls run in a thread and the wait for the lock;
    the calls of the gateway made inside a cycle ([channel.typing()],
    [reply], [send]) are taken to return within the segment that makes
    them.  [asyncio.Lock] is taken by its flag: [async with] takes a free
    lock without suspending, and keeps the task queued while the lock is
    taken; in which order queued tasks are served is left to the event
    loop. *)
Inductive pc :=
| Finished
| Polling                                           (* proactivity_loop, line 69 *)
| ReadingDelay (message : Message) (this_msg_time : Q)   (* on_message, line 237 *)
| LockQueue (message : Message)                     (* _handle_dm, line 260, lock taken *)
| DmDelay (cycle : nat) (message : Message)         (* _handle_dm, line 266 *)
| Deciding (kind : cycle_kind) (cycle : nat) (history_list : list (str * str))
    (my_name : str) (is_direct : bool) (memory : memory_id) (reply_to : bool)
                                                    (* lines 252, 269 and 95 *)
| TypingDelay (loop : send_loop) (formatted_line : str)  (* line 283, then 287 or 289 *)
| Pause (loop : send_loop).                         (* line 296 *)

(** The tasks that are between the acquisition of [processing_lock] and its
    release. *)
Definition in_cycle (p : pc) : bool :=
  match p with
  | DmDelay _ _ | Deciding _ _ _ _ _ _ _ | TypingDelay _ _ | Pause _ => true
  | Finished | Polling | ReadingDelay _ _ | LockQueue _ => false
  end.

(** What a task does from one suspension to the next: the client after it,
    where the task is suspended next, and the lines it delivered, each
    with the cycle that sent it. *)
Record segment := {
  after : KirgClient;
  next : pc;
  output : list (nat * str)
}.

Section Client.
Context `{CT : CaseTables}.

(** *** Mention resolution *)

Definition _remember_user (self : KirgClient) (u : User) : KirgClient :=
  if is_bot u then self
  else
    let keys := [str_lower (user_name u)] in
    let keys :=
      if negb (is_empty (display_name u))
         && negb (str_eqb (str_lower (display_name u)) (str_lower (user_name u)))
      then keys ++ [str_lower (display_name u)] else keys in
    let keys :=
      match nick u with
      | Some n =>
          if negb (is_empty n) && negb (mem (str_lower n) keys)
          then keys ++ [str_lower n] else keys
      | None => keys
      end in
    set_known_users self
      (fold_left (fun d k => dict_set k (mention u) d) keys (known_users self)).

(** [re.compile(re.escape(name), re.IGNORECASE).sub(mention, text)] for a
    non-empty [name].  A mention is [<@id>] and holds no backslash, so the
    replacement template is the mention itself. *)
Fixpoint sub_name_from (skip : nat) (name mention : str) (text : str) : str :=
  match text with
  | [] => []
  | c :: text' =>
      match skip with
      | S k => sub_name_from k name mention text'
      | O =>
          match match_ignorecase name text with
          | Some _ => mention ++ sub_name_from (Nat.pred (length name)) name mention text'
          | None => c :: sub_name_from O name mention text'
          end
      end
  end.

(** The same for any [name]: the empty pattern matches before every
    character and at the end. *)
Definition sub_name (name mention : str) (text : str) : str :=
  match name with
  | [] => mention ++ flat_map (fun c => c :: mention) text
  | _ :: _ => sub_name_from O name mention text
  end.

(** The body of the loop of [_format_mentions]. *)
Definition mention_step (self : KirgClient) (text : str) (name : str) : str :=
  if contains name (str_lower text)
  then match dict_get name (known_users self) with
       | Some mention => sub_name name mention text
       | None => text
       end
  else text.

Definition sorted_names (self : KirgClient) : list str :=
  sorted_by_len (List.map fst (known_users self)).

Definition _format_mentions (self : KirgClient) (text : str) : str :=
  if is_empty text then text
  else fold_left (mention_step self) (sorted_names self) text.

(** *** Handlers, from one suspension to the next *)

Definition _schedule_next_proactivity (self : KirgClient) (env : readings) : KirgClient :=
  set_next_activity_trigger self
    (clock_schedule env + uniform_minutes env * 60)%Q.

Definition get_real_name (self : KirgClient) (author : User) (guild : option Guild)
    : KirgClient * str :=
  match guild with
  | Some g =>
      let member := match get_member g (user_id author) with
                    | Some m => m
                    | None => author
                    end in
      let self := _remember_user self member in
      match nick member with
      | Some n => if is_empty n then (self, display_name author) else (self, n)
      | None => (self, display_name author)
      end
  | None => (_remember_user self author, display_name author)
  end.

(** [self.chat_memories[key]], an empty deque when the key is absent. *)
Definition memory_of (self : KirgClient) (key : memory_id) : list (str * str) :=
  default [] (chat_memories self !! key).

(** [self.chat_memories[key].append(entry)], after the deque was created
    when it was missing. *)
Definition remember (self : KirgClient) (key : memory_id) (entry : str * str) : KirgClient :=
  set_chat_memories self
    (<[key := deque_append entry (memory_of self key)]> (chat_memories self)).

(** The end of a cycle: the lock is released; the proactivity loop then
    schedules its next deadline and goes back to polling. *)
Definition leave_cycle (self : KirgClient) (kind : cycle_kind) (env : readings) : segment :=
  let self := set_processing_lock self false in
  match kind with
  | Proactive =>
      {| after := _schedule_next_proactivity self env; next := Polling; output := [] |}
  | Reactive | Direct =>
      {| after := self; next := Finished; output := [] |}
  end.

(** The head of the loop of [_send_response_package]: the next line is
    formatted and the typing delay begins, or the loop is over. *)
Definition loop_head (self : KirgClient) (loop : send_loop) (env : readings) : segment :=
  match nth_error (sl_response_list loop) (sl_i loop) with
  | Some line =>
      {| after := self; next := TypingDelay loop (_format_mentions self line); output := [] |}
  | None => leave_cycle self (sl_kind loop) env
  end.

Definition next_line (loop : send_loop) : send_loop :=
  {| sl_kind := sl_kind loop; sl_cycle := sl_cycle loop;
     sl_response_list := sl_response_list loop; sl_i := S (sl_i loop);
     sl_my_name := sl_my_name loop; sl_memory_id := sl_memory_id loop;
     sl_reply_to := sl_reply_to loop |}.

(** After the typing delay: the line is delivered and recorded; a failed
    delivery, or a missing memory, is an exception caught by the loop
    body, which then goes on with the next line. *)
Definition deliver (self : KirgClient) (loop : send_loop) (formatted_line : str)
    (env : readings) : segment :=
  if accepted env then
    let sent := [(sl_cycle loop, formatted_line)] in
    match chat_memories self !! sl_memory_id loop,
          nth_error (sl_response_list loop) (sl_i loop) with
    | Some memory, Some line =>
        let self := remember self (sl_memory_id loop) (sl_my_name loop, line) in
        if (sl_i loop <? length (sl_response_list loop) - 1)%nat
        then {| after := self; next := Pause loop; output := sent |}
        else
          let r := loop_head self (next_line loop) env in
          {| after := after r; next := next r; output := sent |}
    | _, _ =>
        let r := loop_head self (next_line loop) env in
        {| after := after r; next := next r; output := sent |}
    end
  else loop_head self (next_line loop) env.

(** The answer of [decide_and_respond] or [decide_proactive_message] has
    arrived. *)
Definition decided (self : KirgClient) (kind : cycle_kind) (cycle : nat)
    (history_list : list (str * str)) (my_name : str) (is_direct : bool)
    (memory : memory_id) (reply_to : bool) (env : readings) : segment :=
  let response :=
    match kind with
    | Proactive => decide_proactive_message (brain self) history_list my_name
    | Reactive | Direct => decide_and_respond (brain self) history_list my_name is_direct
    end in
  match response with
  | Some (line :: lines) =>
      loop_head self
        {| sl_kind := kind; sl_cycle := cycle; sl_response_list := line :: lines;
           sl_i := O; sl_my_name := my_name; sl_memory_id := memory;
           sl_reply_to := reply_to |} env
  | Some [] | None => leave_cycle self kind env
  end.

(** [_handle_dm] once the lock is free, up to line 266. *)
Definition handle_dm_locked (self : KirgClient) (message : Message) (cycle : nat) : segment :=
  let self := set_processing_lock self true in
  let dm_key := DmKey (user_id (author message)) in
  let self := remember self dm_key (user_name (author message), content message) in
  {| after := self; next := DmDelay cycle message; output := [] |}.

Definition _handle_dm (self : KirgClient) (message : Message) (cycle : nat) : segment :=
  if processing_lock self
  then {| after := self; next := LockQueue message; output := [] |}
  else handle_dm_locked self message cycle.

(** [on_message], up to line 237. *)
Definition on_message (self : KirgClient) (message : Message) (env : readings)
    (cycle : nat) : segment :=
  let ch := channel_id message in
  if (user_id (author message) =? user_id (user self))%Z
  then {| after := self; next := Finished; output := [] |}
  else
    match guild message with
    | None => _handle_dm self message cycle
    | Some _ =>
        if negb (bool_decide (Some ch = target_channel_id self))
        then {| after := self; next := Finished; output := [] |}
        else if processing_lock self
        then {| after := self; next := Finished; output := [] |}
        else
          let self := _remember_user self (author message) in
          let clean_content :=
            replace (mention_of_id (user_id (user self))) (lit "@Me") (content message) in
          let '(self, real_name) := get_real_name self (author message) (guild message) in
          let self := remember self (ChannelKey ch) (real_name, clean_content) in
          let self := set_last_activity_time self (clock_now env) in
          let self := _schedule_next_proactivity self env in
          let is_direct :=
            mentioned message
            || bool_decide (reference_author message = Some (user_id (user self))) in
          let self :=
            if is_direct
            then set_channel_mentions_pending self
                   (<[ch := true]> (channel_mentions_pending self))
            else self in
          let this_msg_time := clock_token env in
          let self := set_channel_debounces self
                        (<[ch := this_msg_time]> (channel_debounces self)) in
          {| after := self; next := ReadingDelay message this_msg_time; output := [] |}
    end.

(** [channel_debounces.get(ch) != this_msg_time] *)
Definition token_differs (self : KirgClient) (ch : Z) (this_msg_time : Q) : bool :=
  match channel_debounces self !! ch with
  | Some t => negb (Qeq_bool t this_msg_time)
  | None => true
  end.

(** [on_message] from line 239 to line 252. *)
Definition after_reading_delay (self : KirgClient) (message : Message)
    (this_msg_time : Q) (cycle : nat) : segment :=
  let ch := channel_id message in
  if token_differs self ch this_msg_time
  then {| after := self; next := Finished; output := [] |}
  else if processing_lock self
  then {| after := self; next := Finished; output := [] |}
  else
    let self := set_processing_lock self true in
    let mention_was_pending := default false (channel_mentions_pending self !! ch) in
    let self := set_channel_mentions_pending self
                  (<[ch := false]> (channel_mentions_pending self)) in
    let history_list := memory_of self (ChannelKey ch) in
    let my_nickname :=
      match guild message with
      | Some g => display_name (guild_me g)
      | None => []
      end in
    {| after := self;
       next := Deciding Reactive cycle history_list my_nickname mention_was_pending
                 (ChannelKey ch) mention_was_pending;
       output := [] |}.

(** [_handle_dm] from line 268 to line 269. *)
Definition after_dm_delay (self : KirgClient) (message : Message) (cycle : nat) : segment :=
  let dm_key := DmKey (user_id (author message)) in
  {| after := self;
     next := Deciding Direct cycle (memory_of self dm_key) (lit "Ian") true dm_key true;
     output := [] |}.

(** [if last_author == my_name] of the proactivity loop, with the tests
    that lead to it. *)
Definition last_was_mine (self : KirgClient) (target : Z) : bool :=
  match chat_memories self !! ChannelKey target with
  | Some history =>
      match last history with
      | Some (last_author, _) =>
          let my_name := match me_user self with
                         | Some me => display_name me
                         | None => lit "Ian"
                         end in
          str_eqb last_author my_name
      | None => false
      end
  | None => false
  end.

(** One turn of the [while] of [proactivity_loop], from the end of the
    sleep of line 69 to the next suspension. *)
Definition tick (self : KirgClient) (env : readings) (cycle : nat) : segment :=
  match target_channel_id self with
  | None => {| after := self; next := Polling; output := [] |}
  | Some target =>
      if (target =? 0)%Z
      then {| after := self; next := Polling; output := [] |}
      else if negb (Qle_bool (clock_now env) (next_activity_trigger self))
      then
        if last_was_mine self target
        then {| after := _schedule_next_proactivity self env; next := Polling; output := [] |}
        else if processing_lock self
        then {| after := _schedule_next_proactivity self env; next := Polling; output := [] |}
        else
          let self := set_processing_lock self true in
          if channel_found env then
            let history_list := memory_of self (ChannelKey target) in
            match me_user self with
            | Some me =>
                {| after := self;
                   next := Deciding Proactive cycle history_list (display_name me) false
                             (ChannelKey target) false;
                   output := [] |}
            | None =>
                {| after := set_processing_lock self false; next := Finished; output := [] |}
            end
          else leave_cycle self Proactive env
      else {| after := self; next := Polling; output := [] |}
  end.

(** A suspended task is resumed and runs to its next suspension.  A task
    queued on the lock stays queued while the lock is taken. *)
Definition resume (self : KirgClient) (p : pc) (env : readings) (cycle : nat) : segment :=
  match p with
  | Finished => {| after := self; next := Finished; output := [] |}
  | Polling => tick self env cycle
  | ReadingDelay message this_msg_time =>
      after_reading_delay self message this_msg_time cycle
  | LockQueue message => _handle_dm self message cycle
  | DmDelay cycle message => after_dm_delay self message cycle
  | Deciding kind cycle history_list my_name is_direct memory reply_to =>
      decided self kind cycle history_list my_name is_direct memory reply_to env
  | TypingDelay loop formatted_line => deliver self loop formatted_line env
  | Pause loop => loop_head self (next_line loop) env
  end.

End Client.

(** *** The event loop *)

(** The client, its suspended tasks (a task is named by its position), the
    lines delivered so far with the cycle that sent each, and the name the
    next cycle will get. *)
Record System := {
  kirg : KirgClient;
  tasks : list pc;
  delivered : list (nat * str);
  next_cycle : nat
}.

(** What the event loop does next: the gateway hands a message to a new
    [on_message] task, or a suspended task is resumed. *)
Inductive event :=
| MessageReceived (message : Message) (env : readings)
| Resumed (task : nat) (env : readings).

Section Loop.
Context `{CT : CaseTables}.

Definition exec (sys : System) (ev : event) : System :=
  match ev with
  | MessageReceived message env =>
      let r := on_message (kirg sys) message env (next_cycle sys) in
      {| kirg := after r; tasks := tasks sys ++ [next r];
         delivered := delivered sys ++ output r;
         next_cycle := S (next_cycle sys) |}
  | Resumed task env =>
      match tasks sys !! task with
      | Some p =>
          let r := resume (kirg sys) p env (next_cycle sys) in
          {| kirg := after r; tasks := <[task := next r]> (tasks sys);
             delivered := delivered sys ++ output r;
             next_cycle := S (next_cycle sys) |}
      | None => sys
      end
  end.

Definition run (sys : System) (evs : list event) : System := fold_left exec evs sys.

End Loop.

(** The system when [on_ready] has created the proactivity task: the lock
    is free and nothing was delivered. *)
Definition started (self : KirgClient) : System :=
  {| kirg := set_processing_lock self false; tasks := [Polling];
     delivered := []; next_cycle := O |}.

(** ** Concrete data for the runs evaluated below *)

Module Sample.

(** A brain whose provider always answers [t], and one whose provider
    always raises. *)
Definition answering (t : str) : KirgBrain :=
  {| provider := lit "openrouter"; gemini_model := None;
     client := Some (fun _ _ _ _ => Responds t) |}.

Definition failing : KirgBrain :=
  {| provider := lit "openrouter"; gemini_model := None;
     client := Some (fun _ _ _ _ => Raises) |}.

Definition history : list (str * str) :=
  [(lit "Ana", lit "oi"); (lit "Bob", lit "kkk")].

Definition kirg_user : User :=
  {| user_id := 1; user_name := lit "kirg"; display_name := lit "Ian"; nick := None;
     is_bot := false; mention := lit "<@1>" |}.

Definition ana : User :=
  {| user_id := 2; user_name := lit "ana"; display_name := lit "Ana"; nick := None;
     is_bot := false; mention := lit "<@2>" |}.

Definition server : Guild := {| get_member := fun _ => None; guild_me := kirg_user |}.

(** A client that follows channel 7, knows two aliases, and whose provider
    answers with two lines. *)
Definition client0 : KirgClient :=
  {| brain := answering (lit "oi ana" ++ [NL] ++ lit "slk");
     user := kirg_user; me_user := Some kirg_user; target_channel_id := Some 7%Z;
     chat_memories := ∅; processing_lock := false;
     known_users := [(lit "ian", lit "@U1"); (lit "ianzinho", lit "@U2")];
     channel_debounces := ∅; channel_mentions_pending := ∅;
     last_activity_time := 0%Q; next_activity_trigger := 100%Q |}.

(** A message of Ana in channel 7. *)
Definition said (t : str) : Message :=
  {| author := ana; guild := Some server; channel_id := 7%Z; content := t;
     mentioned := false; reference_author := None |}.

(** Readings in which every clock shows [t]. *)
Definition at_time (t : Q) : readings :=
  {| clock_now := t; uniform_minutes := 5%Q; clock_schedule := t; clock_token := t;
     channel_found := true; accepted := true |}.

End Sample.

(** ** The vocabulary of the statements *)

(** A line that holds neither the straight double quote nor the straight
    single quote. *)
Definition straight_quote_free (m : str) : Prop :=
  has_char DQUOTE m = false /\ has_char SQUOTE m = false.

(** A word counts as the slang token [t] when [t] is what the loop
    compares with the vocabulary: the word in lower case without its dots
    and commas. *)
Definition is_token `{CT : CaseTables} (t : str) (w : str) : bool :=
  str_eqb (slang_key w) t.

(** A word counts as slang when it counts as a token of the vocabulary. *)
Definition is_slang `{CT : CaseTables} (w : str) : bool :=
  mem (slang_key w) common_slang.

(** An earlier name is at least as long as a later one. *)
Definition not_shorter (a b : str) : Prop := (length b <= length a)%nat.

(** The speaker and the text [on_message] records for a message. *)
Definition recorded_entry `{CT : CaseTables} (self : KirgClient) (message : Message)
    : str * str :=
  (snd (get_real_name (_remember_user self (author message)) (author message)
          (guild message)),
   replace (mention_of_id (user_id (user self))) (lit "@Me") (content message)).

(** The cycle a task is in, when it is in one. *)
Definition cycle_of (p : pc) : option nat :=
  match p with
  | DmDelay c _ => Some c
  | Deciding _ c _ _ _ _ _ => Some c
  | TypingDelay loop _ => Some (sl_cycle loop)
  | Pause loop => Some (sl_cycle loop)
  | Finished | Polling | ReadingDelay _ _ | LockQueue _ => None
  end.

(** How one run of a task, from a suspension to the next, may move it with
    respect to the lock.  [before] is the cycle the task was in, [held]
    tells whether the lock was taken, [fresh] is the name a new cycle
    gets.  A task in a cycle stays in it or leaves it and frees the lock,
    and what it delivers belongs to that cycle; a task outside delivers
    nothing, stays outside while the lock is taken, and otherwise enters a
    new cycle and takes the lock, or stays outside. *)
Definition transition (held : bool) (fresh : nat) (before : option nat) (r : segment) : Prop :=
  match before with
  | Some c =>
      ((in_cycle (next r) = true /\ cycle_of (next r) = Some c
        /\ processing_lock (after r) = true)
       \/ (in_cycle (next r) = false /\ processing_lock (after r) = false))
      /\ Forall (fun e => fst e = c) (output r)
  | None =>
      output r = []
      /\ (held = true -> in_cycle (next r) = false /\ processing_lock (after r) = true)
      /\ (held = false ->
          (in_cycle (next r) = true /\ cycle_of (next r) = Some fresh
           /\ processing_lock (after r) = true)
          \/ (in_cycle (next r) = false /\ processing_lock (after r) = false))
  end.

(** What holds of every system the event loop can reach: at most one task
    is in a cycle, the lock is held exactly when one is, the cycle of that
    task is older than the next name and no line delivered so far belongs
    to a later cycle, and the lines were delivered in the order of their
    cycles. *)
Record consistent (sys : System) : Prop := {
  one_holder : forall i j p q,
    tasks sys !! i = Some p -> tasks sys !! j = Some q ->
    in_cycle p = true -> in_cycle q = true -> i = j;
  lock_is_held :
    processing_lock (kirg sys) = true <->
    exists i p, tasks sys !! i = Some p /\ in_cycle p = true;
  holder_named : forall i p c,
    tasks sys !! i = Some p -> cycle_of p = Some c ->
    (c < next_cycle sys)%nat /\ Forall (fun e => (fst e <= c)%nat) (delivered sys);
  log_sorted : StronglySorted le (List.map fst (delivered sys));
  log_bound : Forall (fun e => (fst e < next_cycle sys)%nat) (delivered sys)
}.

(** * Properties *)

(** ** Strings *)

Lemma str_eqb_eq a b : str_eqb a b = true <-> a = b.
Proof. unfold str_eqb. apply bool_decide_eq_true. Qed.

Lemma str_eqb_neq a b : str_eqb a b = false <-> a <> b.
Proof. unfold str_eqb. apply bool_decide_eq_false. Qed.

Lemma str_eqb_refl a : str_eqb a a = true.
Proof. now apply str_eqb_eq. Qed.

Lemma mem_In x l : mem x l = true <-> In x l.
Proof.
  unfold mem. rewrite List.existsb_exists. split.
  - intros (y & Hy & E). apply str_eqb_eq in E. now subst.
  - intros H. exists x. split; [assumption | now apply str_eqb_eq].
Qed.

Lemma mem_not_In x l : mem x l = false <-> ~ In x l.
Proof.
  rewrite <- mem_In. destruct (mem x l); split; intros; congruence.
Qed.

Lemma has_char_In c s : has_char c s = true <-> In c s.
Proof.
  unfold has_char. rewrite List.existsb_exists. split.
  - intros (y & Hy & E). apply N.eqb_eq in E. now subst.
  - intros H. exists c. split; [assumption | apply N.eqb_refl].
Qed.

Lemma has_char_remove c s : has_char c (remove_char c s) = false.
Proof.
  destruct (has_char c (remove_char c s)) eqn:E; [|reflexivity].
  apply has_char_In in E. unfold remove_char in E.
  apply List.filter_In in E. destruct E as [_ E].
  rewrite N.eqb_refl in E. discriminate.
Qed.

Lemma has_char_remove_other c d s :
  has_char d s = false -> has_char d (remove_char c s) = false.
Proof.
  intros H. destruct (has_char d (remove_char c s)) eqn:E; [|reflexivity].
  apply has_char_In in E. unfold remove_char in E.
  apply List.filter_In in E. destruct E as [E _].
  apply has_char_In in E. congruence.
Qed.

(** [split_first] cuts the line at its first separator. *)
Lemma split_first_spec sep s :
  has_char sep s = true ->
  s = fst (split_first sep s) ++ sep :: snd (split_first sep s)
  /\ has_char sep (fst (split_first sep s)) = false.
Proof.
  induction s as [|c s IH]; simpl; [discriminate|].
  intros H. rewrite (N.eqb_sym sep c) in H.
  destruct (c =? sep) eqn:E.
  - apply N.eqb_eq in E. subst. simpl. auto.
  - simpl in H. destruct (IH H) as [IH1 IH2].
    destruct (split_first sep s) as [a b]. simpl in *. split.
    + now rewrite <- IH1.
    + rewrite N.eqb_sym, E. exact IH2.
Qed.

(** ** brain.py: the provider boundary *)

(** C4. When the call to the completion provider raises, [decide_and_respond]
    returns [None]: for every brain, history, name and [is_direct], the
    exception is caught inside [_generate_response] and the caller gets a
    value, "no response". *)
Theorem provider_exception_gives_no_response `{CT : CaseTables}
    (self : KirgBrain) (chat_history : list (str * str)) (my_name : str) (is_direct : bool) :
  provider_call self (reactive_system_prompt my_name is_direct)
    (reactive_user_prompt chat_history my_name) (7 # 10)%Q 150%Z = Some Raises ->
  decide_and_respond self chat_history my_name is_direct = None.
Proof.
  intros H. unfold decide_and_respond, _generate_response. rewrite H. reflexivity.
Qed.

Lemma provider_exception_gives_no_response_witness :
  provider_call Sample.failing (reactive_system_prompt (lit "Ian") true)
    (reactive_user_prompt Sample.history (lit "Ian")) (7 # 10)%Q 150%Z = Some Raises
  /\ decide_and_respond Sample.failing Sample.history (lit "Ian") true = None.
Proof.
  split.
  - reflexivity.
  - apply provider_exception_gives_no_response. reflexivity.
Defined.

(** The proactive path falls back on the canned line when the provider
    raises, is missing, answers nothing, or answers with the skip marker. *)
Lemma proactive_fallback `{CT : CaseTables}
    (self : KirgBrain) (chat_history : list (str * str)) (my_name : str) :
  match _generate_response self (proactive_system_prompt my_name)
          (proactive_user_prompt chat_history my_name) (9 # 10)%Q 60%Z with
  | None => True
  | Some response => is_empty response || contains SKIP response = true
  end ->
  decide_proactive_message self chat_history my_name = Some [boredom_line].
Proof.
  unfold decide_proactive_message.
  destruct (_generate_response _ _ _ _ _) as [response|]; [|reflexivity].
  intros ->. reflexivity.
Qed.

(** C5. The proactive path can produce nothing usable: when the provider's
    answer consists of a think-tag span only, the answer passes the two
    fallback tests, the span is then removed, and the single message
    returned is the empty string. *)
Theorem proactive_think_only_gives_empty_message :
  decide_proactive_message (Sample.answering (lit "<think>hm</think>"))
    Sample.history (lit "Ian") = Some [[]].
Proof. vm_compute. reflexivity. Qed.

(** C10. [decide_proactive_message] always returns a list of exactly one
    string.  The provider's answer is not split on newlines (an answer of
    two lines is one message holding a newline), and the string is empty
    when the answer is a think-tag span only. *)
Theorem proactive_returns_one_string :
  (forall (CT : CaseTables) (self : KirgBrain) (chat_history : list (str * str))
          (my_name : str),
      exists s, decide_proactive_message self chat_history my_name = Some [s])
  /\ decide_proactive_message (Sample.answering (lit "bora" ++ [NL] ++ lit "jogar"))
       Sample.history (lit "Ian") = Some [lit "bora" ++ [NL] ++ lit "jogar"]
  /\ decide_proactive_message (Sample.answering (lit "<think>hm</think>"))
       Sample.history (lit "Ian") = Some [[]].
Proof.
  split; [|split].
  - intros CT self chat_history my_name. unfold decide_proactive_message.
    destruct (_generate_response _ _ _ _ _) as [response|]; [|eauto].
    destruct (is_empty response || contains SKIP response); eauto.
  - vm_compute. reflexivity.
  - vm_compute. reflexivity.
Qed.

(** ** brain.py: the post-processor *)

Lemma clean_line_quote_free `{CT : CaseTables} (line : str) :
  straight_quote_free (clean_line line).
Proof.
  unfold straight_quote_free, clean_line. split.
  - apply has_char_remove_other, has_char_remove.
  - apply has_char_remove.
Qed.

Lemma line_step_quote_free `{CT : CaseTables} active_users my_name recent valid_msgs raw :
  Forall straight_quote_free valid_msgs ->
  Forall straight_quote_free (line_step active_users my_name recent valid_msgs raw).
Proof.
  intros H. unfold line_step.
  destruct (is_empty (strip raw) || contains SKIP (strip raw)); [assumption|].
  destruct (filter_hallucinated active_users my_name (strip raw)) as [line|]; [|assumption].
  destruct (mem (strip (str_lower line)) recent); [assumption|].
  destruct (is_empty (clean_line line)); [assumption|].
  destruct (List.existsb _ valid_msgs); [assumption|].
  apply Forall_app. split; [assumption|].
  constructor; [apply clean_line_quote_free | constructor].
Qed.

Lemma lines_quote_free `{CT : CaseTables} active_users my_name recent lines valid_msgs :
  Forall straight_quote_free valid_msgs ->
  Forall straight_quote_free
    (fold_left (line_step active_users my_name recent) lines valid_msgs).
Proof.
  revert valid_msgs. induction lines as [|l lines IH]; intros valid_msgs H; simpl.
  - assumption.
  - apply IH, line_step_quote_free, H.
Qed.

(** C6, as the code has it.  Every line [decide_and_respond] returns holds
    no straight double quote and no straight single quote. *)
Theorem kept_lines_have_no_straight_quotes `{CT : CaseTables}
    (self : KirgBrain) (chat_history : list (str * str)) (my_name : str)
    (is_direct : bool) (msgs : list str) :
  decide_and_respond self chat_history my_name is_direct = Some msgs ->
  Forall straight_quote_free msgs.
Proof.
  unfold decide_and_respond.
  destruct (_generate_response _ _ _ _ _) as [response|]; [|discriminate].
  destruct (is_empty response); [discriminate|].
  unfold post_process.
  destruct (contains SKIP (strip (sub_think response))); [discriminate|].
  set (valid := fold_left _ _ _).
  assert (Hv : Forall straight_quote_free valid).
  { apply lines_quote_free. constructor. }
  destruct valid as [|v valid']; [discriminate|].
  intros [= <-]. change (Forall straight_quote_free (firstn 3 (v :: valid'))). now apply Forall_take.
Qed.

Lemma kept_lines_have_no_straight_quotes_witness :
  decide_and_respond (Sample.answering (lit "'oi' gente")) Sample.history (lit "Ian") false
    = Some [lit "oi gente"]
  /\ Forall straight_quote_free [lit "oi gente"].
Proof.
  assert (E : decide_and_respond (Sample.answering (lit "'oi' gente"))
                Sample.history (lit "Ian") false = Some [lit "oi gente"])
    by (vm_compute; reflexivity).
  split.
  - exact E.
  - exact (kept_lines_have_no_straight_quotes _ _ _ _ _ E).
Defined.

(** C6, as the specification states it, fails: a line in curly quotes is
    returned with its curly quotes (U+201C and U+201D). *)
Lemma curly_quotes_are_kept :
  exists m,
    decide_and_respond (Sample.answering ([8220] ++ lit "oi gente" ++ [8221]))
      Sample.history (lit "Ian") false = Some [m]
    /\ has_char 8220 m = true /\ has_char 8221 m = true.
Proof.
  exists ([8220] ++ lit "oi gente" ++ [8221]).
  split; [|split]; vm_compute; reflexivity.
Qed.

(** *** The colon filter *)

Lemma filter_hallucinated_cases `{CT : CaseTables}
    (active_users : list str) (my_name : str) (line : str) :
  has_char COLON line = true ->
  let part0 := fst (split_first COLON line) in
  let part1 := snd (split_first COLON line) in
  let name_part := str_lower (strip part0) in
  (line = part0 ++ COLON :: part1 /\ has_char COLON part0 = false)
  /\ (name_part = str_lower my_name ->
      filter_hallucinated active_users my_name line = Some (strip part1))
  /\ (name_part <> str_lower my_name ->
      In name_part (List.map str_lower active_users) ->
      filter_hallucinated active_users my_name line = None)
  /\ (name_part <> str_lower my_name ->
      ~ In name_part (List.map str_lower active_users) ->
      filter_hallucinated active_users my_name line = Some line).
Proof.
  intros Hc part0 part1 name_part.
  split; [apply split_first_spec, Hc|].
  unfold filter_hallucinated. rewrite Hc.
  fold part0 part1. destruct (split_first COLON line) as [a b] eqn:E.
  subst part0 part1 name_part. simpl.
  split; [|split].
  - intros Heq. apply str_eqb_eq in Heq. rewrite Heq.
    rewrite orb_true_r. reflexivity.
  - intros Hne Hin. apply str_eqb_neq in Hne. rewrite Hne.
    apply mem_In in Hin. rewrite Hin. reflexivity.
  - intros Hne Hin. apply str_eqb_neq in Hne. rewrite Hne.
    apply mem_not_In in Hin. rewrite Hin. reflexivity.
Qed.

(** What the loop body does with a line that passed the colon filter, from
    "Filter eco" to the [append]: [valid_msgs] after the iteration. *)
Definition keep_line `{CT : CaseTables} (recent_contents : list str)
    (valid_msgs : list str) (line : str) : list str :=
  if mem (strip (str_lower line)) recent_contents then valid_msgs
  else
    let line_clean := clean_line line in
    if is_empty line_clean then valid_msgs
    else if List.existsb
              (fun v => str_eqb (str_lower line_clean) (str_lower v)) valid_msgs
    then valid_msgs
    else valid_msgs ++ [line_clean].

(** [valid_msgs[:3] if valid_msgs else None] *)
Definition first_three (valid_msgs : list str) : option (list str) :=
  match valid_msgs with
  | [] => None
  | _ :: _ => Some (firstn 3 valid_msgs)
  end.

Lemma line_step_keep_line `{CT : CaseTables} active_users my_name recent valid_msgs raw :
  line_step active_users my_name recent valid_msgs raw
  = if is_empty (strip raw) || contains SKIP (strip raw) then valid_msgs
    else match filter_hallucinated active_users my_name (strip raw) with
         | None => valid_msgs
         | Some line => keep_line recent valid_msgs line
         end.
Proof. reflexivity. Qed.

Lemma decide_and_respond_lines_of `{CT : CaseTables}
    (self : KirgBrain) (chat_history : list (str * str)) (my_name : str)
    (is_direct : bool) (response : str) :
  _generate_response self (reactive_system_prompt my_name is_direct)
    (reactive_user_prompt chat_history my_name) (7 # 10)%Q 150%Z = Some response ->
  is_empty response = false ->
  contains SKIP (strip (sub_think response)) = false ->
  decide_and_respond self chat_history my_name is_direct
  = first_three
      (fold_left
         (line_step (collect_users chat_history) my_name (collect_contents chat_history))
         (split_char NL (strip (sub_think response))) []).
Proof.
  intros Hg He Hs. unfold decide_and_respond. rewrite Hg, He.
  unfold post_process. rewrite Hs. reflexivity.
Qed.

(** A line of a text is a part of the text, and so is what [strip] leaves
    of it: the marker [[SKIP]] is not in a line of an answer that does not
    hold it. *)
Lemma starts_with_app (p s b : str) :
  starts_with p s = true -> starts_with p (s ++ b) = true.
Proof.
  revert s. induction p as [|a p IH]; intros s H; [reflexivity|].
  destruct s as [|c s]; [discriminate|]. simpl in *.
  apply andb_true_iff in H as [H1 H2]. rewrite H1. simpl. now apply IH.
Qed.

Lemma contains_app_l (p s b : str) :
  contains p s = true -> contains p (s ++ b) = true.
Proof.
  induction s as [|c s IH]; intros H.
  - simpl in H. rewrite orb_false_r in H.
    destruct p; [|discriminate]. destruct b; reflexivity.
  - cbn [contains] in H. apply orb_true_iff in H as [H|H].
    + change ((c :: s) ++ b) with (c :: (s ++ b)). cbn [contains].
      change (c :: (s ++ b)) with ((c :: s) ++ b).
      rewrite (starts_with_app _ _ _ H). reflexivity.
    + change ((c :: s) ++ b) with (c :: (s ++ b)). cbn [contains].
      rewrite (IH H). apply orb_true_r.
Qed.

Lemma contains_app_r (p a s : str) :
  contains p s = true -> contains p (a ++ s) = true.
Proof.
  intros H. induction a as [|c a IH]; [exact H|].
  change ((c :: a) ++ s) with (c :: (a ++ s)). cbn [contains].
  rewrite IH. apply orb_true_r.
Qed.

Lemma lstrip_suffix (s : str) : exists a, s = a ++ lstrip s.
Proof.
  induction s as [|c s [a IH]]; [now exists []|].
  simpl. destruct (isspace c).
  - exists (c :: a). simpl. now f_equal.
  - now exists [].
Qed.

Lemma rstrip_prefix (s : str) : exists b, s = rstrip s ++ b.
Proof.
  unfold rstrip. destruct (lstrip_suffix (rev s)) as [a E].
  exists (rev a). rewrite <- rev_app_distr, <- E. symmetry. apply rev_involutive.
Qed.

Lemma strip_part (s : str) : exists a b, s = a ++ strip s ++ b.
Proof.
  unfold strip. destruct (lstrip_suffix s) as [a Ea].
  destruct (rstrip_prefix (lstrip s)) as [b Eb].
  exists a, b. now rewrite <- Eb.
Qed.

Lemma split_char_head (sep : char) (s : str) :
  exists h t b, split_char sep s = h :: t /\ s = h ++ b.
Proof.
  induction s as [|c s (h & t & b & E & Es)].
  - now exists [], [], [].
  - simpl. destruct (c =? sep).
    + now exists [], (split_char sep s), (c :: s).
    + rewrite E. exists (c :: h), t, b. split; [reflexivity|]. simpl. now f_equal.
Qed.

Lemma split_char_part (sep : char) (s x : str) :
  In x (split_char sep s) -> exists a b, s = a ++ x ++ b.
Proof.
  revert x. induction s as [|c s IH]; intros x Hx.
  - destruct Hx as [<-|[]]. now exists [], [].
  - simpl in Hx. destruct (c =? sep).
    + destruct Hx as [<-|Hx].
      * now exists [], (c :: s).
      * destruct (IH x Hx) as (a & b & E). exists (c :: a), b. simpl. now f_equal.
    + destruct (split_char_head sep s) as (h & t & b & E & Es).
      rewrite E in Hx, IH. destruct Hx as [<-|Hx].
      * exists [], b. simpl. now f_equal.
      * destruct (IH x (or_intror Hx)) as (a & b' & E').
        exists (c :: a), b'. simpl. now f_equal.
Qed.

Lemma line_without_marker (p text raw : str) :
  contains p text = false ->
  In raw (split_char NL text) ->
  contains p (strip raw) = false.
Proof.
  intros Hn Hin.
  destruct (contains p (strip raw)) eqn:E; [|reflexivity].
  destruct (split_char_part _ _ _ Hin) as (a & b & ->).
  destruct (strip_part raw) as (a' & b' & Er).
  rewrite Er in Hn.
  rewrite (contains_app_r p a _ (contains_app_l p _ b
             (contains_app_r p a' _ (contains_app_l p _ b' E)))) in Hn.
  discriminate.
Qed.

Lemma has_char_not_empty (c : char) (s : str) : has_char c s = true -> is_empty s = false.
Proof. destruct s; [discriminate | reflexivity]. Qed.

(** C2. Take an answer of the provider that reaches the loop over its
    lines, and any of its lines that, once stripped, holds a colon.  The
    name before the first colon ([name_part]: the text before the colon
    without the blanks around it, in lower case) decides what the
    post-processor does with the line.  When it is the bot's own name in
    lower case, the iteration goes on with the stripped rest of the line in
    place of the line ([keep_line]: echo filter, slang, quotes, duplicate
    test, append).  When it is the lower-case name of a participant and not
    the bot's, the iteration leaves [valid_msgs] as it was, and
    [decide_and_respond] returns what it returns for the same lines
    without this one.  Otherwise the iteration goes on with the line
    unchanged.  In each case the value of [decide_and_respond] is the one
    the remaining lines give from there. *)
Theorem hallucinated_prefix_rule `{CT : CaseTables}
    (self : KirgBrain) (chat_history : list (str * str)) (my_name : str)
    (is_direct : bool) (response : str) (pre : list str) (raw : str) (post : list str) :
  _generate_response self (reactive_system_prompt my_name is_direct)
    (reactive_user_prompt chat_history my_name) (7 # 10)%Q 150%Z = Some response ->
  is_empty response = false ->
  contains SKIP (strip (sub_think response)) = false ->
  split_char NL (strip (sub_think response)) = pre ++ raw :: post ->
  has_char COLON (strip raw) = true ->
  let line := strip raw in
  let part0 := fst (split_first COLON line) in
  let part1 := snd (split_first COLON line) in
  let name_part := str_lower (strip part0) in
  let active_users := collect_users chat_history in
  let recent_contents := collect_contents chat_history in
  let step := line_step active_users my_name recent_contents in
  let valid_msgs := fold_left step pre [] in
  (line = part0 ++ COLON :: part1 /\ has_char COLON part0 = false)
  /\ (name_part = str_lower my_name ->
      step valid_msgs raw = keep_line recent_contents valid_msgs (strip part1)
      /\ decide_and_respond self chat_history my_name is_direct
         = first_three
             (fold_left step post (keep_line recent_contents valid_msgs (strip part1))))
  /\ (name_part <> str_lower my_name ->
      In name_part (List.map str_lower active_users) ->
      step valid_msgs raw = valid_msgs
      /\ decide_and_respond self chat_history my_name is_direct
         = first_three (fold_left step (pre ++ post) []))
  /\ (name_part <> str_lower my_name ->
      ~ In name_part (List.map str_lower active_users) ->
      step valid_msgs raw = keep_line recent_contents valid_msgs line
      /\ decide_and_respond self chat_history my_name is_direct
         = first_three (fold_left step post (keep_line recent_contents valid_msgs line))).
Proof.
  intros Hg He Hs Hl Hc line part0 part1 name_part active_users recent_contents step valid_msgs.
  destruct (filter_hallucinated_cases active_users my_name line Hc) as (Hsplit & Hme & Hdrop & Hkeep).
  fold part0 part1 name_part in Hsplit, Hme, Hdrop, Hkeep.
  assert (Hstep : forall v,
            step v raw = match filter_hallucinated active_users my_name line with
                         | None => v
                         | Some l => keep_line recent_contents v l
                         end).
  { intros v. unfold step. rewrite line_step_keep_line.
    rewrite (has_char_not_empty _ _ Hc).
    rewrite (line_without_marker SKIP _ raw Hs); [reflexivity|].
    rewrite Hl. apply in_or_app. right. now left. }
  assert (Hd : decide_and_respond self chat_history my_name is_direct
               = first_three (fold_left step post (step valid_msgs raw))).
  { rewrite (decide_and_respond_lines_of _ _ _ _ _ Hg He Hs), Hl.
    rewrite fold_left_app. reflexivity. }
  split; [exact Hsplit|]. split; [|split].
  - intros H. rewrite Hd, Hstep, (Hme H). split; reflexivity.
  - intros H1 H2. rewrite Hd, Hstep, (Hdrop H1 H2), fold_left_app. split; reflexivity.
  - intros H1 H2. rewrite Hd, Hstep, (Hkeep H1 H2). split; reflexivity.
Qed.

Lemma hallucinated_prefix_rule_witness :
  let answer := lit "Bob: kkk" ++ [NL] ++ lit "slk que isso" ++ [NL] ++ lit "IAN: slk mid" in
  let step := line_step (collect_users Sample.history) (lit "Ian")
                (collect_contents Sample.history) in
  split_char NL (strip (sub_think answer))
    = [] ++ lit "Bob: kkk" :: [lit "slk que isso"; lit "IAN: slk mid"]
  /\ has_char COLON (strip (lit "Bob: kkk")) = true
  /\ step [] (lit "Bob: kkk") = []
  /\ step [lit "slk que isso"] (lit "IAN: slk mid") = [lit "slk que isso"; lit "slk mid"]
  /\ decide_and_respond (Sample.answering answer) Sample.history (lit "Ian") false
     = Some [lit "slk que isso"; lit "slk mid"].
Proof.
  intros answer step.
  assert (Hl : split_char NL (strip (sub_think answer))
               = [] ++ lit "Bob: kkk" :: [lit "slk que isso"; lit "IAN: slk mid"])
    by (vm_compute; reflexivity).
  assert (Hl' : split_char NL (strip (sub_think answer))
                = [lit "Bob: kkk"; lit "slk que isso"] ++ lit "IAN: slk mid" :: [])
    by (vm_compute; reflexivity).
  assert (Hc : has_char COLON (strip (lit "Bob: kkk")) = true) by reflexivity.
  assert (Hc' : has_char COLON (strip (lit "IAN: slk mid")) = true) by reflexivity.
  assert (Hg : _generate_response (Sample.answering answer)
                 (reactive_system_prompt (lit "Ian") false)
                 (reactive_user_prompt Sample.history (lit "Ian")) (7 # 10)%Q 150%Z
               = Some answer) by (vm_compute; reflexivity).
  assert (He : is_empty answer = false) by reflexivity.
  assert (Hs : contains SKIP (strip (sub_think answer)) = false) by (vm_compute; reflexivity).
  pose proof (hallucinated_prefix_rule (Sample.answering answer) Sample.history (lit "Ian")
                false answer _ _ _ Hg He Hs Hl Hc) as Hbob.
  pose proof (hallucinated_prefix_rule (Sample.answering answer) Sample.history (lit "Ian")
                false answer _ _ _ Hg He Hs Hl' Hc') as Hian.
  cbv zeta in Hbob, Hian.
  destruct Hbob as (_ & _ & Hdrop & _).
  destruct Hdrop as [Hstep Hret].
  { vm_compute. discriminate. }
  { vm_compute. tauto. }
  destruct Hian as (_ & Hme & _).
  destruct Hme as [Hstep' _].
  { vm_compute. reflexivity. }
  split; [exact Hl|]. split; [exact Hc|]. split; [exact Hstep|]. split.
  - etransitivity; [exact Hstep'|]. vm_compute. reflexivity.
  - etransitivity; [exact Hret|]. vm_compute. reflexivity.
Defined.

(** The scenario of the specification: with Ana and Bob in memory and the
    bot named Ian, the fabricated turn of Bob is dropped and the two other
    lines are returned. *)
Example fabricated_turn_dropped :
  decide_and_respond
    (Sample.answering (lit "Bob: kkk" ++ [NL] ++ lit "slk que isso" ++ [NL] ++ lit "slk mid"))
    Sample.history (lit "Ian") false
  = Some [lit "slk que isso"; lit "slk mid"].
Proof. vm_compute. reflexivity. Qed.

(** The think-tag pattern on nested and unclosed tags: the shortest span
    is removed, an opening tag without its closing tag stays. *)
Example sub_think_shortest_span :
  sub_think (lit "a<think>b<thought>c</thought>d</THINK>e<thought>q</think>r</thought>z<think>")
  = lit "aez<think>".
Proof. vm_compute. reflexivity. Qed.

(** *** Slang *)

Lemma mem_app x l1 l2 : mem x (l1 ++ l2) = mem x l1 || mem x l2.
Proof. unfold mem. apply List.existsb_app. Qed.

Lemma mem_set_add t x s : mem t (set_add x s) = str_eqb t x || mem t s.
Proof.
  unfold set_add. destruct (mem x s) eqn:E.
  - destruct (str_eqb t x) eqn:Et; [|reflexivity].
    apply str_eqb_eq in Et. subst. now rewrite E.
  - rewrite mem_app. simpl. rewrite orb_false_r. apply orb_comm.
Qed.

Section Slang.
Context `{CT : CaseTables}.

Lemma dedup_from_token (t : str) (words : list str) :
  In t common_slang ->
  forall seen,
    List.filter (is_token t) (dedup_slang_from seen words)
    = if mem t seen then [] else firstn 1 (List.filter (is_token t) words).
Proof.
  intros Ht. induction words as [|w ws IH]; intros seen.
  - cbn. now destruct (mem t seen).
  - cbn [dedup_slang_from List.filter].
    destruct (is_token t w) eqn:E; unfold is_token in E.
    + apply str_eqb_eq in E. subst t.
      apply mem_In in Ht. rewrite Ht.
      destruct (mem (slang_key w) seen) eqn:Hseen.
      * rewrite IH, Hseen. reflexivity.
      * cbn [List.filter]. unfold is_token at 1. rewrite str_eqb_refl.
        rewrite IH, mem_set_add, str_eqb_refl. reflexivity.
    + assert (E' : str_eqb t (slang_key w) = false).
      { apply str_eqb_neq. apply str_eqb_neq in E. congruence. }
      destruct (mem (slang_key w) common_slang).
      * destruct (mem (slang_key w) seen) eqn:Hseen.
        -- apply IH.
        -- cbn [List.filter]. unfold is_token at 1. rewrite E.
           rewrite IH, mem_set_add, E'. reflexivity.
      * cbn [List.filter]. unfold is_token at 1. rewrite E. apply IH.
Qed.

Lemma dedup_from_other (words : list str) :
  forall seen,
    List.filter (fun w => negb (is_slang w)) (dedup_slang_from seen words)
    = List.filter (fun w => negb (is_slang w)) words.
Proof.
  induction words as [|w ws IH]; intros seen; [reflexivity|].
  cbn [dedup_slang_from List.filter].
  destruct (is_slang w) eqn:Hs; unfold is_slang in Hs; rewrite Hs; cbn [negb].
  - destruct (mem (slang_key w) seen).
    + apply IH.
    + cbn [List.filter]. unfold is_slang at 1. rewrite Hs. cbn [negb]. apply IH.
  - cbn [List.filter]. unfold is_slang at 1. rewrite Hs. cbn [negb]. now rewrite IH.
Qed.

Lemma dedup_from_sublist (words : list str) :
  forall seen, sublist (dedup_slang_from seen words) words.
Proof.
  induction words as [|w ws IH]; intros seen; [constructor|].
  cbn [dedup_slang_from].
  destruct (mem (slang_key w) common_slang).
  - destruct (mem (slang_key w) seen).
    + apply sublist_cons, IH.
    + apply sublist_skip, IH.
  - apply sublist_skip, IH.
Qed.

End Slang.

Lemma dedup_from_snoc `{CT : CaseTables} (pre : list str) (w : str) :
  forall seen,
    dedup_slang_from seen (pre ++ [w])
    = dedup_slang_from seen pre
      ++ (if is_slang w && (mem (slang_key w) seen || List.existsb (is_token (slang_key w)) pre)
          then [] else [w]).
Proof.
  unfold is_slang.
  induction pre as [|x pre IH]; intros seen.
  - cbn [app dedup_slang_from List.existsb]. rewrite orb_false_r.
    destruct (mem (slang_key w) common_slang); [|reflexivity].
    destruct (mem (slang_key w) seen); reflexivity.
  - change ((x :: pre) ++ [w]) with (x :: (pre ++ [w])).
    cbn [dedup_slang_from List.existsb]. unfold is_token at 1.
    destruct (str_eqb (slang_key x) (slang_key w)) eqn:Ex.
    + apply str_eqb_eq in Ex. rewrite Ex.
      destruct (mem (slang_key w) common_slang) eqn:Hs.
      * destruct (mem (slang_key w) seen) eqn:Hseen.
        -- rewrite IH, Hseen. reflexivity.
        -- rewrite IH, mem_set_add, str_eqb_refl. cbn [andb orb]. reflexivity.
      * rewrite IH. cbn [andb]. reflexivity.
    + cbn [orb].
      destruct (mem (slang_key x) common_slang).
      * destruct (mem (slang_key x) seen).
        -- apply IH.
        -- rewrite IH, mem_set_add.
           assert (Ex' : str_eqb (slang_key w) (slang_key x) = false).
           { apply str_eqb_neq. apply str_eqb_neq in Ex. congruence. }
           rewrite Ex'. reflexivity.
      * rewrite IH. reflexivity.
Qed.

Lemma line_step_origin `{CT : CaseTables} active_users my_name recent valid_msgs raw :
  line_step active_users my_name recent valid_msgs raw = valid_msgs
  \/ exists line,
       filter_hallucinated active_users my_name (strip raw) = Some line
       /\ line_step active_users my_name recent valid_msgs raw
          = valid_msgs ++ [clean_line line].
Proof.
  unfold line_step.
  destruct (is_empty (strip raw) || contains SKIP (strip raw)); [now left|].
  destruct (filter_hallucinated active_users my_name (strip raw)) as [line|]; [|now left].
  destruct (mem (strip (str_lower line)) recent); [now left|].
  destruct (is_empty (clean_line line)); [now left|].
  destruct (List.existsb _ valid_msgs); [now left|].
  right. exists line. split; reflexivity.
Qed.

Lemma lines_origin `{CT : CaseTables} active_users my_name recent (all : list str)
    (lines valid_msgs : list str) :
  let from_a_line m :=
    exists raw line,
      In raw all
      /\ filter_hallucinated active_users my_name (strip raw) = Some line
      /\ m = clean_line line in
  (forall raw, In raw lines -> In raw all) ->
  Forall from_a_line valid_msgs ->
  Forall from_a_line (fold_left (line_step active_users my_name recent) lines valid_msgs).
Proof.
  intros from_a_line. revert valid_msgs.
  induction lines as [|l lines IH]; intros valid_msgs Hin Hv; simpl; [exact Hv|].
  apply IH; [intros raw Hr; apply Hin; now right|].
  destruct (line_step_origin active_users my_name recent valid_msgs l) as [->|(line & Hf & ->)].
  - exact Hv.
  - apply Forall_app. split; [exact Hv|].
    constructor; [|constructor].
    exists l, line. split; [apply Hin; now left|]. split; [exact Hf | reflexivity].
Qed.

(** C7, as the code has it.  Every line [decide_and_respond] returns comes
    from a line of the answer that passed the colon filter: it is the
    words of that line ([line.split()]), without the repeats, joined by one
    blank, and then without the straight quotes.  A word is a repeat, and
    is dropped, exactly when it counts as a token of the vocabulary (lower
    case, dots and commas removed, quotes still in place) and an earlier
    word of the line counts as the same token; every other word is kept, in
    the order of the line.  Hence the kept words are a sublist of the
    words, hold every word that is not slang, and for each token the first
    word that counts as it and no later one. *)
Theorem slang_first_occurrence_kept `{CT : CaseTables}
    (self : KirgBrain) (chat_history : list (str * str)) (my_name : str)
    (is_direct : bool) (response : str) (msgs : list str) :
  _generate_response self (reactive_system_prompt my_name is_direct)
    (reactive_user_prompt chat_history my_name) (7 # 10)%Q 150%Z = Some response ->
  decide_and_respond self chat_history my_name is_direct = Some msgs ->
  Forall (fun m =>
            exists raw line,
              In raw (split_char NL (strip (sub_think response)))
              /\ filter_hallucinated (collect_users chat_history) my_name (strip raw)
                 = Some line
              /\ m = remove_char SQUOTE
                       (remove_char DQUOTE (join [SPACE] (dedup_slang (split_ws line)))))
         msgs
  /\ dedup_slang [] = []
  /\ (forall earlier w,
        dedup_slang (earlier ++ [w])
        = dedup_slang earlier
          ++ (if is_slang w && List.existsb (is_token (slang_key w)) earlier
              then [] else [w]))
  /\ (forall words,
        sublist (dedup_slang words) words
        /\ List.filter (fun w => negb (is_slang w)) (dedup_slang words)
           = List.filter (fun w => negb (is_slang w)) words
        /\ (forall t, In t common_slang ->
              List.filter (is_token t) (dedup_slang words)
              = firstn 1 (List.filter (is_token t) words))).
Proof.
  intros Hg Hd. split; [|split; [reflexivity|split]].
  - unfold decide_and_respond in Hd. rewrite Hg in Hd.
    destruct (is_empty response); [discriminate|].
    unfold post_process in Hd.
    destruct (contains SKIP (strip (sub_think response))); [discriminate|].
    set (lines := split_char NL (strip (sub_think response))) in *.
    set (valid := fold_left _ _ _) in Hd.
    assert (Hv : Forall (fun m =>
                   exists raw line,
                     In raw lines
                     /\ filter_hallucinated (collect_users chat_history) my_name (strip raw)
                        = Some line
                     /\ m = clean_line line) valid).
    { apply lines_origin; [tauto | constructor]. }
    destruct valid as [|v valid']; [discriminate|].
    injection Hd as <-.
    exact (Forall_take _ 3%nat (v :: valid') Hv).
  - intros earlier w. unfold dedup_slang. rewrite dedup_from_snoc. reflexivity.
  - intros words. split; [|split].
    + apply dedup_from_sublist.
    + apply dedup_from_other.
    + intros t Ht. unfold dedup_slang. now rewrite (dedup_from_token t words Ht []).
Qed.

Lemma slang_first_occurrence_kept_witness :
  let answer := lit "slk que mid SLK, isso" in
  _generate_response (Sample.answering answer) (reactive_system_prompt (lit "Ian") false)
    (reactive_user_prompt Sample.history (lit "Ian")) (7 # 10)%Q 150%Z = Some answer
  /\ decide_and_respond (Sample.answering answer) Sample.history (lit "Ian") false
     = Some [lit "slk que mid isso"]
  /\ Forall (fun m =>
               exists raw line,
                 In raw (split_char NL (strip (sub_think answer)))
                 /\ filter_hallucinated (collect_users Sample.history) (lit "Ian") (strip raw)
                    = Some line
                 /\ m = remove_char SQUOTE
                          (remove_char DQUOTE (join [SPACE] (dedup_slang (split_ws line)))))
            [lit "slk que mid isso"].
Proof.
  intros answer.
  assert (Hg : _generate_response (Sample.answering answer)
                 (reactive_system_prompt (lit "Ian") false)
                 (reactive_user_prompt Sample.history (lit "Ian")) (7 # 10)%Q 150%Z
               = Some answer) by (vm_compute; reflexivity).
  assert (Hd : decide_and_respond (Sample.answering answer) Sample.history (lit "Ian") false
               = Some [lit "slk que mid isso"]) by (vm_compute; reflexivity).
  split; [exact Hg|]. split; [exact Hd|].
  exact (proj1 (slang_first_occurrence_kept _ _ _ _ _ _ Hg Hd)).
Defined.

(** C7, as the specification states it, fails: the quotes are removed
    after the slang loop, so a quoted slk is not a token for the loop and
    the plain slk after it is not a repeat; the returned line holds the
    token twice. *)
Lemma quoted_slang_is_kept_twice :
  decide_and_respond (Sample.answering ([SQUOTE] ++ lit "slk" ++ [SQUOTE] ++ lit " mano slk"))
    Sample.history (lit "Ian") false
  = Some [lit "slk mano slk"]
  /\ In (lit "slk") common_slang
  /\ List.filter (is_token (lit "slk")) (split_ws (lit "slk mano slk"))
     = [lit "slk"; lit "slk"].
Proof.
  split; [vm_compute; reflexivity|].
  split; [vm_compute; tauto|].
  vm_compute. reflexivity.
Qed.

(** ** main.py: mention resolution *)

Lemma insert_by_len_perm x l : Permutation (insert_by_len x l) (x :: l).
Proof.
  induction l as [|y l IH]; simpl; [reflexivity|].
  destruct (length y <=? length x)%nat; [reflexivity|].
  rewrite IH. apply perm_swap.
Qed.

Lemma sorted_by_len_perm l : Permutation (sorted_by_len l) l.
Proof.
  induction l as [|x l IH]; simpl; [reflexivity|].
  rewrite insert_by_len_perm. now constructor.
Qed.

Lemma insert_by_len_sorted x l :
  StronglySorted not_shorter l -> StronglySorted not_shorter (insert_by_len x l).
Proof.
  induction l as [|y l IH]; intros Hs; simpl.
  - constructor; constructor.
  - inversion Hs as [|? ? Hl Hy]; subst.
    destruct (length y <=? length x)%nat eqn:E.
    + apply Nat.leb_le in E. constructor; [assumption|].
      constructor; [exact E|].
      eapply Forall_impl; [exact Hy|]. unfold not_shorter. intros z Hz. lia.
    + apply Nat.leb_gt in E. constructor; [apply IH, Hl|].
      rewrite insert_by_len_perm. constructor; [unfold not_shorter; lia | exact Hy].
Qed.

Lemma sorted_by_len_sorted l : StronglySorted not_shorter (sorted_by_len l).
Proof.
  induction l as [|x l IH]; simpl; [constructor|].
  apply insert_by_len_sorted, IH.
Qed.

Lemma no_alias_no_change `{CT : CaseTables} (self : KirgClient) (names : list str) (text : str) :
  (forall name, In name names -> contains name (str_lower text) = false) ->
  fold_left (mention_step self) names text = text.
Proof.
  induction names as [|n names IH]; intros H; simpl; [reflexivity|].
  unfold mention_step at 2. rewrite (H n (or_introl eq_refl)).
  apply IH. intros name Hn. apply H. now right.
Qed.

(** The pattern of a name at the head of a text: the matched text has the
    length of the name and is followed by the rest. *)
Lemma match_ignorecase_parts `{CT : CaseTables} (p s m r : str) :
  match_ignorecase p s = Some (m, r) -> s = m ++ r /\ length m = length p.
Proof.
  revert s m r. induction p as [|a p IH]; intros s m r H.
  - destruct s; injection H as <- <-; split; reflexivity.
  - destruct s as [|c s]; [discriminate|]. simpl in H.
    destruct (sre_ignore a c); [|discriminate].
    destruct (match_ignorecase p s) as [[m' r']|] eqn:E; [|discriminate].
    injection H as <- <-. destruct (IH _ _ _ E) as [-> Hlen].
    split; [reflexivity | simpl; now f_equal].
Qed.

Lemma sub_name_from_skip `{CT : CaseTables} (name mention a rest : str) :
  sub_name_from (length a) name mention (a ++ rest) = sub_name_from O name mention rest.
Proof.
  induction a as [|c a IH]; [destruct rest; reflexivity|]. exact IH.
Qed.

(** The leftmost occurrence of a name is replaced by the mention and the
    substitution goes on after it. *)
Lemma sub_name_from_occurrence `{CT : CaseTables} (name mention pre occ rest : str) :
  name <> [] ->
  (forall a b, pre = a ++ b -> b <> [] -> match_ignorecase name (b ++ occ ++ rest) = None) ->
  match_ignorecase name (occ ++ rest) = Some (occ, rest) ->
  sub_name_from O name mention (pre ++ occ ++ rest)
  = pre ++ mention ++ sub_name_from O name mention rest.
Proof.
  intros Hname Hpre Hocc. induction pre as [|c pre IH].
  - destruct (match_ignorecase_parts _ _ _ _ Hocc) as [_ Hlen].
    destruct name as [|n name]; [congruence|].
    destruct occ as [|c occ]; [discriminate|].
    change ([] ++ (c :: occ) ++ rest) with (c :: (occ ++ rest)).
    cbn [sub_name_from]. change (c :: (occ ++ rest)) with ((c :: occ) ++ rest).
    rewrite Hocc. cbn [app]. f_equal.
    simpl in Hlen. injection Hlen as Hlen.
    cbn [length Nat.pred]. rewrite <- Hlen. apply sub_name_from_skip.
  - change ((c :: pre) ++ occ ++ rest) with (c :: (pre ++ occ ++ rest)).
    cbn [sub_name_from]. change (c :: (pre ++ occ ++ rest)) with ((c :: pre) ++ occ ++ rest).
    rewrite (Hpre [] (c :: pre) eq_refl) by discriminate.
    cbn [app]. f_equal. apply IH.
    intros a b -> Hb. apply (Hpre (c :: a) b eq_refl Hb).
Qed.

Lemma sub_name_from_absent `{CT : CaseTables} (name mention text : str) :
  (forall a b, text = a ++ b -> b <> [] -> match_ignorecase name b = None) ->
  sub_name_from O name mention text = text.
Proof.
  induction text as [|c text IH]; intros H; [reflexivity|].
  cbn [sub_name_from]. rewrite (H [] (c :: text) eq_refl) by discriminate.
  f_equal. apply IH. intros a b -> Hb. apply (H (c :: a) b eq_refl Hb).
Qed.




(** ** main.py: the message handler *)

Lemma set_known_users_id (self : KirgClient) : set_known_users self (known_users self) = self.
Proof. destruct self; reflexivity. Qed.

Lemma remember_user_shape `{CT : CaseTables} (self : KirgClient) (u : User) :
  exists ks, _remember_user self u = set_known_users self ks.
Proof.
  unfold _remember_user. destruct (is_bot u).
  - exists (known_users self). symmetry. apply set_known_users_id.
  - eexists. reflexivity.
Qed.

Lemma get_real_name_shape `{CT : CaseTables} (self : KirgClient) (a : User) (g : option Guild) :
  exists ks, fst (get_real_name self a g) = set_known_users self ks.
Proof.
  unfold get_real_name. destruct g as [g|].
  - destruct (remember_user_shape self
                (match get_member g (user_id a) with Some m => m | None => a end))
      as [ks E].
    exists ks. rewrite E.
    destruct (nick _) as [n|]; [destruct (is_empty n)|]; reflexivity.
  - destruct (remember_user_shape self a) as [ks E]. exists ks. now rewrite E.
Qed.

Lemma deque_append_last {A} (x : A) (d : list A) : last (deque_append x d) = Some x.
Proof.
  unfold deque_append.
  assert (E : skipn (length (d ++ [x]) - HISTORY_LIMIT) (d ++ [x])
              = skipn (length (d ++ [x]) - HISTORY_LIMIT) d ++ [x]).
  { rewrite List.skipn_app.
    replace (length (d ++ [x]) - HISTORY_LIMIT - length d)%nat with O; [reflexivity|].
    rewrite length_app. unfold HISTORY_LIMIT. simpl. lia. }
  rewrite E. apply last_snoc.
Qed.

(** What [on_message] does with a message of another user in the followed
    channel of a guild, while the lock is free. *)
Lemma on_message_recording `{CT : CaseTables}
    (self : KirgClient) (message : Message) (env : readings) (cycle : nat) (g : Guild) :
  user_id (author message) <> user_id (user self) ->
  guild message = Some g ->
  target_channel_id self = Some (channel_id message) ->
  processing_lock self = false ->
  let r := on_message self message env cycle in
  let key := ChannelKey (channel_id message) in
  chat_memories (after r)
  = <[key := deque_append (recorded_entry self message) (memory_of self key)]>
      (chat_memories self)
  /\ channel_debounces (after r)
     = <[channel_id message := clock_token env]> (channel_debounces self)
  /\ processing_lock (after r) = false
  /\ target_channel_id (after r) = target_channel_id self
  /\ user (after r) = user self
  /\ next r = ReadingDelay message (clock_token env)
  /\ output r = [].
Proof.
  intros Hid Hg Ht Hl. unfold on_message, recorded_entry.
  apply Z.eqb_neq in Hid. rewrite Hid, Hg, Ht, Hl.
  rewrite bool_decide_eq_true_2 by reflexivity. cbn [negb].
  destruct (remember_user_shape self (author message)) as [ks1 E1]. rewrite E1.
  destruct (get_real_name_shape (set_known_users self ks1) (author message) (Some g))
    as [ks2 E2].
  destruct (get_real_name (set_known_users self ks1) (author message) (Some g))
    as [self2 real_name] eqn:E. cbn [fst snd] in *. subst self2.
  destruct (mentioned message || bool_decide _); cbn; rewrite ?Hl, ?Ht;
    repeat split; reflexivity.
Qed.

(** C1, as the code has it.  A message of another user in the followed
    channel that arrives while the lock is free is recorded in memory, as
    the newest entry, in the run of the handler that ends at the debounce
    wait; one that arrives while the lock is held leaves the client as it
    was and the handler returns at once: the message is not recorded. *)
Theorem inbound_message_recorded_when_lock_free `{CT : CaseTables}
    (self : KirgClient) (message : Message) (env : readings) (cycle : nat) (g : Guild) :
  user_id (author message) <> user_id (user self) ->
  guild message = Some g ->
  target_channel_id self = Some (channel_id message) ->
  let r := on_message self message env cycle in
  let key := ChannelKey (channel_id message) in
  (processing_lock self = false ->
     chat_memories (after r) !! key
     = Some (deque_append (recorded_entry self message) (memory_of self key))
     /\ last (memory_of (after r) key) = Some (recorded_entry self message)
     /\ next r = ReadingDelay message (clock_token env))
  /\ (processing_lock self = true ->
     after r = self /\ next r = Finished /\ output r = []).
Proof.
  intros Hid Hg Ht r key. split.
  - intros Hl.
    destruct (on_message_recording self message env cycle g Hid Hg Ht Hl)
      as (Hm & _ & _ & _ & _ & Hn & _).
    fold r key in Hm, Hn.
    assert (E : chat_memories (after r) !! key
                = Some (deque_append (recorded_entry self message) (memory_of self key))).
    { rewrite Hm. apply lookup_insert_eq. }
    split; [exact E|]. split; [|exact Hn].
    unfold memory_of at 1. rewrite E. cbn [default]. apply deque_append_last.
  - intros Hl. subst r. unfold on_message.
    apply Z.eqb_neq in Hid. rewrite Hid, Hg, Ht, Hl.
    rewrite bool_decide_eq_true_2 by reflexivity. cbn. auto.
Qed.

Lemma inbound_message_recorded_when_lock_free_witness :
  processing_lock Sample.client0 = false
  /\ chat_memories (after (on_message Sample.client0 (Sample.said (lit "oi"))
                             (Sample.at_time 1) O)) !! ChannelKey 7
     = Some [(lit "Ana", lit "oi")]
  /\ next (on_message Sample.client0 (Sample.said (lit "oi")) (Sample.at_time 1) O)
     = ReadingDelay (Sample.said (lit "oi")) 1%Q.
Proof.
  assert (Hid : user_id (author (Sample.said (lit "oi"))) <> user_id (user Sample.client0))
    by (vm_compute; discriminate).
  destruct (inbound_message_recorded_when_lock_free Sample.client0 (Sample.said (lit "oi"))
              (Sample.at_time 1) O Sample.server Hid eq_refl eq_refl) as [H _].
  destruct (H eq_refl) as (Hm & _ & Hn).
  split; [reflexivity|]. split; [exact Hm | exact Hn].
Defined.

(** C1, as the specification states it, fails.  A first message starts a
    cycle (the lock is then held); a second message that arrives in the
    followed channel during the cycle is not in memory afterwards, and its
    handler has returned without waiting. *)
Lemma message_during_cycle_is_not_recorded :
  let sys := run (started Sample.client0)
               [MessageReceived (Sample.said (lit "oi")) (Sample.at_time 1);
                Resumed 1 (Sample.at_time 2)] in
  let late := Sample.said (lit "tem alguem ai") in
  let sys' := exec sys (MessageReceived late (Sample.at_time 3)) in
  processing_lock (kirg sys) = true
  /\ target_channel_id (kirg sys) = Some (channel_id late)
  /\ memory_of (kirg sys') (ChannelKey (channel_id late)) = [(lit "Ana", lit "oi")]
  /\ ~ In (lit "Ana", content late) (memory_of (kirg sys') (ChannelKey (channel_id late)))
  /\ tasks sys' !! 2%nat = Some Finished.
Proof.
  vm_compute. repeat split; try reflexivity.
  intros [H|[]]. discriminate.
Qed.

(** *** The debounce token *)

Lemma token_differs_false (self : KirgClient) (ch : Z) (t : Q) :
  token_differs self ch t = false <->
  exists t', channel_debounces self !! ch = Some t' /\ (t' == t)%Q.
Proof.
  unfold token_differs. destruct (channel_debounces self !! ch) as [t'|].
  - rewrite negb_false_iff, Qeq_bool_iff. split.
    + intros H. exists t'. auto.
    + intros (t'' & [= <-] & H). exact H.
  - split; [discriminate | intros (t' & H & _); discriminate].
Qed.

Lemma token_differs_true (self : KirgClient) (ch : Z) (t t' : Q) :
  channel_debounces self !! ch = Some t' -> ~ (t' == t)%Q ->
  token_differs self ch t = true.
Proof.
  intros H Hne. destruct (token_differs self ch t) eqn:E; [reflexivity|].
  apply token_differs_false in E. destruct E as (t'' & E & Heq).
  rewrite H in E. injection E as <-. contradiction.
Qed.

(** The wait cycle that holds the latest token of its channel starts a
    decision when the lock is free. *)
Lemma fresh_cycle_decides `{CT : CaseTables}
    (self : KirgClient) (message : Message) (t : Q) (cycle : nat) :
  token_differs self (channel_id message) t = false ->
  processing_lock self = false ->
  in_cycle (next (after_reading_delay self message t cycle)) = true.
Proof.
  intros Ht Hl. unfold after_reading_delay. rewrite Ht, Hl. reflexivity.
Qed.




(** ** main.py: the response lock *)

Lemma cycle_of_in_cycle p c : cycle_of p = Some c -> in_cycle p = true.
Proof. destruct p; simpl; congruence. Qed.

Lemma in_cycle_cycle_of p : in_cycle p = true -> exists c, cycle_of p = Some c.
Proof. destruct p; simpl; try discriminate; eauto. Qed.

Lemma not_in_cycle_of p : in_cycle p = false -> cycle_of p = None.
Proof. destruct p; simpl; congruence. Qed.

Section Segments.
Context `{CT : CaseTables}.

Lemma remember_user_lock (self : KirgClient) (u : User) :
  processing_lock (_remember_user self u) = processing_lock self.
Proof. destruct (remember_user_shape self u) as [ks ->]. reflexivity. Qed.

Lemma leave_cycle_spec (self : KirgClient) (kind : cycle_kind) (env : readings) :
  in_cycle (next (leave_cycle self kind env)) = false
  /\ processing_lock (after (leave_cycle self kind env)) = false
  /\ output (leave_cycle self kind env) = [].
Proof. destruct kind; cbn; auto. Qed.

Lemma loop_head_spec (self : KirgClient) (loop : send_loop) (env : readings) :
  processing_lock self = true ->
  transition true O (Some (sl_cycle loop)) (loop_head self loop env).
Proof.
  intros Hl. unfold loop_head, transition.
  destruct (nth_error (sl_response_list loop) (sl_i loop)) as [line|].
  - cbn. split; [left; auto | constructor].
  - destruct (leave_cycle_spec self (sl_kind loop) env) as (H1 & H2 & H3).
    rewrite H3. split; [right; auto | constructor].
Qed.

Lemma deliver_spec (self : KirgClient) (loop : send_loop) (formatted_line : str)
    (env : readings) :
  processing_lock self = true ->
  transition true O (Some (sl_cycle loop)) (deliver self loop formatted_line env).
Proof.
  intros Hl. unfold deliver.
  pose proof (loop_head_spec self (next_line loop) env Hl) as Hnext.
  destruct (accepted env); [|exact Hnext].
  assert (Hsent : Forall (fun e : nat * str => fst e = sl_cycle loop)
                    [(sl_cycle loop, formatted_line)]).
  { constructor; [reflexivity | constructor]. }
  destruct (chat_memories self !! sl_memory_id loop) as [memory|].
  - destruct (nth_error (sl_response_list loop) (sl_i loop)) as [line|].
    + set (self' := remember self (sl_memory_id loop) (sl_my_name loop, line)).
      assert (Hl' : processing_lock self' = true) by exact Hl.
      destruct (sl_i loop <? length (sl_response_list loop) - 1)%nat.
      * cbn. split; [left; auto | exact Hsent].
      * destruct (loop_head_spec self' (next_line loop) env Hl') as [H _].
        split; [exact H | exact Hsent].
    + destruct Hnext as [H _]. split; [exact H | exact Hsent].
  - destruct Hnext as [H _]. split; [exact H | exact Hsent].
Qed.

Lemma decided_spec (self : KirgClient) kind cycle history_list my_name is_direct memory
    reply_to (env : readings) :
  processing_lock self = true ->
  transition true O (Some cycle)
    (decided self kind cycle history_list my_name is_direct memory reply_to env).
Proof.
  intros Hl. unfold decided.
  assert (Hleave : transition true O (Some cycle) (leave_cycle self kind env)).
  { destruct (leave_cycle_spec self kind env) as (H1 & H2 & H3).
    unfold transition. rewrite H3. split; [right; auto | constructor]. }
  destruct (match kind with
            | Proactive => decide_proactive_message (brain self) history_list my_name
            | _ => decide_and_respond (brain self) history_list my_name is_direct
            end) as [[|line lines]|]; try exact Hleave.
  apply (loop_head_spec self
           {| sl_kind := kind; sl_cycle := cycle; sl_response_list := line :: lines;
              sl_i := O; sl_my_name := my_name; sl_memory_id := memory;
              sl_reply_to := reply_to |} env Hl).
Qed.

Lemma handle_dm_spec (self : KirgClient) (message : Message) (cycle : nat) :
  transition (processing_lock self) cycle None (_handle_dm self message cycle).
Proof.
  unfold _handle_dm, transition. destruct (processing_lock self) eqn:Hl; cbn.
  - split; [reflexivity|]. split; [auto | discriminate].
  - split; [reflexivity|]. split; [discriminate | auto].
Qed.

Lemma on_message_spec (self : KirgClient) (message : Message) (env : readings)
    (cycle : nat) :
  transition (processing_lock self) cycle None (on_message self message env cycle).
Proof.
  assert (Hstay : transition (processing_lock self) cycle None
                    {| after := self; next := Finished; output := [] |}).
  { unfold transition. cbn. split; [reflexivity|]. split; auto. }
  unfold on_message.
  destruct (user_id (author message) =? user_id (user self))%Z; [exact Hstay|].
  destruct (guild message) as [g|] eqn:Hg; [|apply handle_dm_spec].
  destruct (negb _); [exact Hstay|].
  destruct (processing_lock self) eqn:Hl; [exact Hstay|].
  destruct (remember_user_shape self (author message)) as [ks1 E1]. rewrite E1.
  destruct (get_real_name_shape (set_known_users self ks1) (author message) (Some g))
    as [ks2 E2].
  destruct (get_real_name (set_known_users self ks1) (author message) (Some g))
    as [self2 real_name]. cbn [fst] in E2. subst self2.
  unfold transition.
  destruct (mentioned message || bool_decide _); cbn; rewrite ?Hl;
    (split; [reflexivity|]; split; [discriminate | auto]).
Qed.

Lemma after_reading_delay_spec (self : KirgClient) (message : Message) (t : Q)
    (cycle : nat) :
  transition (processing_lock self) cycle None (after_reading_delay self message t cycle).
Proof.
  unfold after_reading_delay, transition.
  destruct (token_differs self (channel_id message) t);
    [cbn; split; [reflexivity|]; split; auto|].
  destruct (processing_lock self) eqn:Hl; cbn.
  - split; [reflexivity|]. split; [auto | discriminate].
  - split; [reflexivity|]. split; [discriminate | auto].
Qed.

Lemma tick_spec (self : KirgClient) (env : readings) (cycle : nat) :
  transition (processing_lock self) cycle None (tick self env cycle).
Proof.
  assert (Hstay : forall self', processing_lock self' = processing_lock self ->
            transition (processing_lock self) cycle None
              {| after := self'; next := Polling; output := [] |}).
  { intros self' E. unfold transition. cbn. rewrite E.
    split; [reflexivity|]. split; auto. }
  unfold tick.
  destruct (target_channel_id self) as [target|]; [|now apply Hstay].
  destruct (target =? 0)%Z; [now apply Hstay|].
  destruct (negb _); [|now apply Hstay].
  destruct (last_was_mine self target); [now apply Hstay|].
  destruct (processing_lock self) eqn:Hl; [now apply Hstay|].
  unfold transition.
  destruct (channel_found env).
  - destruct (me_user (set_processing_lock self true)) as [me|]; cbn.
    + split; [reflexivity|]. split; [discriminate | auto].
    + split; [reflexivity|]. split; [discriminate | auto].
  - destruct (leave_cycle_spec (set_processing_lock self true) Proactive env)
      as (H1 & H2 & H3).
    rewrite H3. split; [reflexivity|]. split; [discriminate | auto].
Qed.

(** Every run of a task is such a transition. *)
Lemma resume_spec (self : KirgClient) (p : pc) (env : readings) (cycle : nat) :
  (in_cycle p = true -> processing_lock self = true) ->
  transition (processing_lock self) cycle (cycle_of p) (resume self p env cycle).
Proof.
  intros Hheld. destruct p; cbn [resume cycle_of].
  - unfold transition. cbn. split; [reflexivity|]. split; auto.
  - apply tick_spec.
  - apply after_reading_delay_spec.
  - apply handle_dm_spec.
  - unfold transition, after_dm_delay. cbn.
    split; [left; rewrite Hheld; auto | constructor].
  - apply decided_spec, Hheld. reflexivity.
  - apply deliver_spec, Hheld. reflexivity.
  - apply (loop_head_spec self (next_line loop) env), Hheld. reflexivity.
Qed.

End Segments.

(** *** The invariant of the event loop *)

Lemma sorted_app_same (l : list (nat * str)) (out : list (nat * str)) (c : nat) :
  StronglySorted le (List.map fst l) ->
  Forall (fun e => (fst e <= c)%nat) l ->
  Forall (fun e => fst e = c) out ->
  StronglySorted le (List.map fst (l ++ out)).
Proof.
  intros Hs Hle Hout. induction l as [|e l IH]; simpl.
  - induction Hout as [|e out He Hout IH]; simpl; [constructor|].
    constructor; [exact IH|].
    apply List.Forall_forall. intros x Hx. apply in_map_iff in Hx.
    destruct Hx as (e' & <- & Hin).
    rewrite List.Forall_forall in Hout. rewrite He, (Hout e' Hin). constructor.
  - simpl in Hs. inversion Hs as [|? ? Hs' Hall]; subst.
    inversion Hle as [|? ? He Hle']; subst.
    constructor; [apply IH; assumption|].
    rewrite List.map_app. apply Forall_app. split; [exact Hall|].
    apply List.Forall_forall. intros x Hx. apply in_map_iff in Hx.
    destruct Hx as (e' & <- & Hin).
    rewrite List.Forall_forall in Hout. rewrite (Hout e' Hin). exact He.
Qed.

Lemma sorted_lookup (l : list nat) :
  StronglySorted le l ->
  forall i j a b, (i < j)%nat -> l !! i = Some a -> l !! j = Some b -> (a <= b)%nat.
Proof.
  induction 1 as [|x l Hs IH Hall]; intros i j a b Hij Ha Hb.
  - discriminate.
  - destruct j as [|j]; [lia|]. simpl in Hb. destruct i as [|i].
    + simpl in Ha. injection Ha as <-.
      rewrite List.Forall_forall in Hall. apply Hall.
      apply list_elem_of_In. eapply list_elem_of_lookup_2. exact Hb.
    + simpl in Ha. apply (IH i j); [lia | assumption | assumption].
Qed.

(** One run of the task at position [i] keeps the invariant. *)
Lemma update_consistent (sys : System) (i : nat) (r : segment) (tasks' : list pc) :
  consistent sys ->
  tasks' !! i = Some (next r) ->
  (forall j, j <> i -> tasks' !! j = tasks sys !! j) ->
  transition (processing_lock (kirg sys)) (next_cycle sys)
    (match tasks sys !! i with Some p => cycle_of p | None => None end) r ->
  consistent {| kirg := after r; tasks := tasks'; delivered := delivered sys ++ output r;
                next_cycle := S (next_cycle sys) |}.
Proof.
  intros [H1 H2 H3 H4 H5] Hi Hother Htr.
  assert (Hweak : Forall (fun e => (fst e < S (next_cycle sys))%nat) (delivered sys)).
  { eapply Forall_impl; [exact H5|]. intros e He. simpl in He. lia. }
  destruct (match tasks sys !! i with Some p => cycle_of p | None => None end)
    as [c|] eqn:Hbefore; unfold transition in Htr.
  - (* the task was in the cycle [c] *)
    destruct (tasks sys !! i) as [p|] eqn:Hp; [|discriminate].
    pose proof (cycle_of_in_cycle p c Hbefore) as Hin.
    assert (Hno : forall j q, j <> i -> tasks' !! j = Some q -> in_cycle q = false).
    { intros j q Hj Hq. rewrite (Hother j Hj) in Hq.
      destruct (in_cycle q) eqn:E; [|reflexivity].
      exfalso. apply Hj. exact (H1 j i q p Hq Hp E Hin). }
    destruct (H3 i p c Hp Hbefore) as [Hlt Hle].
    destruct Htr as [Hq Hout].
    assert (Hsorted : StronglySorted le (List.map fst (delivered sys ++ output r)))
      by (eapply sorted_app_same; eassumption).
    assert (Hbound : Forall (fun e => (fst e < S (next_cycle sys))%nat)
                       (delivered sys ++ output r)).
    { apply Forall_app. split; [exact Hweak|].
      eapply Forall_impl; [exact Hout|]. intros e He. simpl in He. lia. }
    assert (Hlec : Forall (fun e => (fst e <= c)%nat) (delivered sys ++ output r)).
    { apply Forall_app. split; [exact Hle|].
      eapply Forall_impl; [exact Hout|]. intros e He. simpl in He. lia. }
    constructor; cbn [kirg tasks delivered next_cycle]; try assumption.
    + intros a b pa pb Ha Hb Hina Hinb.
      destruct (decide (a = i)) as [->|Hai];
        [|rewrite (Hno a pa Hai Ha) in Hina; discriminate].
      destruct (decide (b = i)) as [->|Hbi];
        [reflexivity | rewrite (Hno b pb Hbi Hb) in Hinb; discriminate].
    + destruct Hq as [(Hnin & _ & Hlock)|(Hnout & Hlock)]; rewrite Hlock.
      * split; [intros _; eauto | reflexivity].
      * split; [discriminate|]. intros (a & pa & Ha & Hina). exfalso.
        destruct (decide (a = i)) as [->|Hai].
        -- rewrite Hi in Ha. injection Ha as <-. congruence.
        -- rewrite (Hno a pa Hai Ha) in Hina. discriminate.
    + intros a pa ca Ha Hca.
      pose proof (cycle_of_in_cycle pa ca Hca) as Hina.
      destruct (decide (a = i)) as [->|Hai];
        [|rewrite (Hno a pa Hai Ha) in Hina; discriminate].
      rewrite Hi in Ha. injection Ha as <-.
      destruct Hq as [(_ & Hc & _)|(Hnout & _)]; [|congruence].
      rewrite Hc in Hca. injection Hca as <-. split; [lia | exact Hlec].
  - (* the task was in no cycle *)
    assert (Hwas : forall p, tasks sys !! i = Some p -> in_cycle p = false).
    { intros p Hp. rewrite Hp in Hbefore.
      destruct (in_cycle p) eqn:E; [|reflexivity].
      destruct (in_cycle_cycle_of p E) as [c Hc]. congruence. }
    destruct Htr as (Hout & Hheld & Hfree). rewrite Hout, app_nil_r.
    destruct (processing_lock (kirg sys)) eqn:Hl.
    + (* the lock is taken by another task *)
      destruct (Hheld eq_refl) as [Hnout Hlock].
      assert (Hsame : forall j q, tasks' !! j = Some q -> in_cycle q = true ->
                j <> i /\ tasks sys !! j = Some q).
      { intros j q Hq Hin. destruct (decide (j = i)) as [->|Hj].
        - rewrite Hi in Hq. injection Hq as <-. congruence.
        - split; [exact Hj|]. now rewrite <- (Hother j Hj). }
      constructor; cbn [kirg tasks delivered next_cycle]; try assumption.
      * intros a b pa pb Ha Hb Hina Hinb.
        destruct (Hsame a pa Ha Hina) as [_ Ha'].
        destruct (Hsame b pb Hb Hinb) as [_ Hb'].
        exact (H1 a b pa pb Ha' Hb' Hina Hinb).
      * rewrite Hlock. split; [|reflexivity]. intros _.
        destruct (proj1 H2 eq_refl) as (k & pk & Hk & Hink).
        exists k, pk. split; [|exact Hink].
        rewrite Hother; [exact Hk|]. intros ->.
        rewrite (Hwas pk Hk) in Hink. discriminate.
      * intros a pa ca Ha Hca.
        pose proof (cycle_of_in_cycle pa ca Hca) as Hina.
        destruct (Hsame a pa Ha Hina) as [_ Ha'].
        destruct (H3 a pa ca Ha' Hca) as [Hlt Hle]. split; [lia | exact Hle].
    + (* the lock is free: no task is in a cycle *)
      assert (Hnone : forall j q, j <> i -> tasks' !! j = Some q -> in_cycle q = false).
      { intros j q Hj Hq. rewrite (Hother j Hj) in Hq.
        destruct (in_cycle q) eqn:E; [|reflexivity].
        assert (Hex : exists i p, tasks sys !! i = Some p /\ in_cycle p = true) by eauto.
        apply H2 in Hex. discriminate. }
      constructor; cbn [kirg tasks delivered next_cycle]; try assumption.
      * intros a b pa pb Ha Hb Hina Hinb.
        destruct (decide (a = i)) as [->|Hai];
          [|rewrite (Hnone a pa Hai Ha) in Hina; discriminate].
        destruct (decide (b = i)) as [->|Hbi];
          [reflexivity | rewrite (Hnone b pb Hbi Hb) in Hinb; discriminate].
      * destruct (Hfree eq_refl) as [(Hnin & _ & Hlock)|(Hnout & Hlock)]; rewrite Hlock.
        -- split; [intros _; eauto | reflexivity].
        -- split; [discriminate|]. intros (a & pa & Ha & Hina). exfalso.
           destruct (decide (a = i)) as [->|Hai].
           ++ rewrite Hi in Ha. injection Ha as <-. congruence.
           ++ rewrite (Hnone a pa Hai Ha) in Hina. discriminate.
      * intros a pa ca Ha Hca.
        pose proof (cycle_of_in_cycle pa ca Hca) as Hina.
        destruct (decide (a = i)) as [->|Hai];
          [|rewrite (Hnone a pa Hai Ha) in Hina; discriminate].
        rewrite Hi in Ha. injection Ha as <-.
        destruct (Hfree eq_refl) as [(_ & Hc & _)|(Hnout & _)]; [|congruence].
        rewrite Hc in Hca. injection Hca as <-. split; [lia|].
        eapply Forall_impl; [exact H5|]. intros e He. simpl in He. lia.
Qed.

Lemma started_consistent (self : KirgClient) : consistent (started self).
Proof.
  constructor; cbn.
  - intros i j p q Hp Hq Hinp. destruct i as [|i]; [|discriminate].
    injection Hp as <-. discriminate.
  - split; [discriminate|]. intros (i & p & Hp & Hin).
    destruct i as [|i]; [|discriminate]. injection Hp as <-. discriminate.
  - intros i p c Hp Hc. destruct i as [|i]; [|discriminate].
    injection Hp as <-. discriminate.
  - constructor.
  - constructor.
Qed.

Lemma exec_consistent `{CT : CaseTables} (sys : System) (ev : event) :
  consistent sys -> consistent (exec sys ev).
Proof.
  intros Hc. destruct ev as [message env|task env]; cbn [exec].
  - apply (update_consistent sys (length (tasks sys))); [exact Hc| | |].
    + rewrite lookup_app_r by lia. now rewrite Nat.sub_diag.
    + intros j Hj. destruct (decide (j < length (tasks sys))%nat) as [Hlt|Hge].
      * now rewrite lookup_app_l.
      * rewrite lookup_app_r by lia.
        rewrite (proj2 (lookup_ge_None (tasks sys) j)) by lia.
        destruct (j - length (tasks sys))%nat as [|k] eqn:E; [lia | reflexivity].
    + rewrite (proj2 (lookup_ge_None (tasks sys) (length (tasks sys)))) by lia.
      apply on_message_spec.
  - destruct (tasks sys !! task) as [p|] eqn:Hp; [|exact Hc].
    apply (update_consistent sys task); [exact Hc| | |].
    + apply list_lookup_insert_eq. eapply lookup_lt_Some, Hp.
    + intros j Hj. apply list_lookup_insert_ne. congruence.
    + rewrite Hp. apply resume_spec. intros Hin.
      apply (lock_is_held sys Hc). eauto.
Qed.

Lemma run_consistent `{CT : CaseTables} (evs : list event) (sys : System) :
  consistent sys -> consistent (run sys evs).
Proof.
  revert sys. induction evs as [|ev evs IH]; intros sys Hc; simpl; [exact Hc|].
  apply IH, exec_consistent, Hc.
Qed.

Lemma lookup_map_fst (l : list (nat * str)) (i : nat) :
  List.map fst l !! i = fst <$> l !! i.
Proof.
  revert i. induction l as [|e l IH]; intros [|i]; simpl; auto.
Qed.



(** * Further properties of the code *)

(** ** brain.py: what [decide_and_respond] returns *)

Lemma NoDup_snoc {A} (l : list A) (x : A) : NoDup l -> ~ In x l -> NoDup (l ++ [x]).
Proof.
  intros Hnd Hx. apply NoDup_app. split; [exact Hnd|]. split.
  - intros y Hy Hin. apply list_elem_of_singleton in Hin. subst y.
    apply Hx. now apply list_elem_of_In.
  - apply NoDup_singleton.
Qed.

Lemma NoDup_firstn {A} (n : nat) (l : list A) : NoDup l -> NoDup (firstn n l).
Proof.
  intros Hnd. eapply sublist_NoDup; [exact Hnd | apply sublist_take].
Qed.

Section Answer.
Context `{CT : CaseTables}.

(** What the loop over the lines keeps true of [valid_msgs]. *)
Definition well_formed_msgs (valid_msgs : list str) : Prop :=
  Forall (fun m => m <> []) valid_msgs /\ NoDup (List.map str_lower valid_msgs).

Lemma line_step_well_formed active_users my_name recent valid_msgs raw :
  well_formed_msgs valid_msgs ->
  well_formed_msgs (line_step active_users my_name recent valid_msgs raw).
Proof.
  intros [Hne Hnd]. unfold line_step.
  destruct (is_empty (strip raw) || contains SKIP (strip raw)); [now split|].
  destruct (filter_hallucinated active_users my_name (strip raw)) as [line|]; [|now split].
  destruct (mem (strip (str_lower line)) recent); [now split|].
  destruct (is_empty (clean_line line)) eqn:He; [now split|].
  destruct (List.existsb _ valid_msgs) eqn:Hex; [now split|].
  split.
  - apply Forall_app. split; [exact Hne|].
    constructor; [|constructor]. intros E. rewrite E in He. discriminate.
  - rewrite List.map_app. apply NoDup_snoc; [exact Hnd|].
    intros Hin. apply in_map_iff in Hin. destruct Hin as (v & Hv & Hin).
    assert (Ht : List.existsb
                   (fun v => str_eqb (str_lower (clean_line line)) (str_lower v))
                   valid_msgs = true).
    { apply List.existsb_exists. exists v. split; [exact Hin|].
      apply str_eqb_eq. now symmetry. }
    congruence.
Qed.

Lemma lines_well_formed active_users my_name recent lines valid_msgs :
  well_formed_msgs valid_msgs ->
  well_formed_msgs (fold_left (line_step active_users my_name recent) lines valid_msgs).
Proof.
  revert valid_msgs. induction lines as [|l lines IH]; intros valid_msgs H; simpl.
  - exact H.
  - apply IH, line_step_well_formed, H.
Qed.

(** The lines a successful post-processing returns are the first three of
    the lines the loop kept. *)
Lemma decide_and_respond_lines (self : KirgBrain) chat_history my_name is_direct msgs :
  decide_and_respond self chat_history my_name is_direct = Some msgs ->
  exists response v valid,
    msgs = firstn 3 (v :: valid)
    /\ v :: valid
       = fold_left
           (line_step (collect_users chat_history) my_name (collect_contents chat_history))
           (split_char NL (strip (sub_think response))) [].
Proof.
  unfold decide_and_respond.
  destruct (_generate_response _ _ _ _ _) as [response|]; [|discriminate].
  destruct (is_empty response); [discriminate|].
  unfold post_process.
  destruct (contains SKIP (strip (sub_think response))); [discriminate|].
  destruct (fold_left _ _ _) as [|v valid] eqn:E; [discriminate|].
  intros [= <-]. exists response, v, valid. split; [reflexivity|]. now rewrite E.
Qed.

End Answer.

(** X1. When [decide_and_respond] answers, it returns one, two or three
    lines, none of them empty, and no two of them equal once in lower
    case. *)
Theorem reactive_answer_shape `{CT : CaseTables}
    (self : KirgBrain) (chat_history : list (str * str)) (my_name : str)
    (is_direct : bool) (msgs : list str) :
  decide_and_respond self chat_history my_name is_direct = Some msgs ->
  (1 <= length msgs <= 3)%nat
  /\ Forall (fun m => m <> []) msgs
  /\ NoDup (List.map str_lower msgs).
Proof.
  intros H. destruct (decide_and_respond_lines _ _ _ _ _ H) as (response & v & valid & -> & E).
  assert (Hw : well_formed_msgs (v :: valid)).
  { rewrite E. apply lines_well_formed. split; constructor. }
  destruct Hw as [Hne Hnd]. split; [|split].
  - rewrite length_firstn. cbn [length]. lia.
  - change (Forall (fun m : str => m <> []) (firstn 3 (v :: valid))).
    now apply Forall_take.
  - rewrite <- List.firstn_map. now apply NoDup_firstn.
Qed.

Lemma reactive_answer_shape_witness :
  decide_and_respond
    (Sample.answering (lit "a" ++ [NL] ++ lit "A" ++ [NL] ++ lit "b" ++ [NL] ++ lit "c"
                       ++ [NL] ++ lit "d"))
    Sample.history (lit "Ian") false
  = Some [lit "a"; lit "b"; lit "c"]
  /\ (1 <= length [lit "a"; lit "b"; lit "c"] <= 3)%nat.
Proof.
  assert (E : decide_and_respond
                (Sample.answering (lit "a" ++ [NL] ++ lit "A" ++ [NL] ++ lit "b" ++ [NL]
                                   ++ lit "c" ++ [NL] ++ lit "d"))
                Sample.history (lit "Ian") false
              = Some [lit "a"; lit "b"; lit "c"]) by (vm_compute; reflexivity).
  split; [exact E|].
  exact (proj1 (reactive_answer_shape _ _ _ _ _ E)).
Defined.

(** A line in which the only white space is the plain space. *)
Definition plain_spaced (m : str) : Prop :=
  forall c, In c m -> isspace c = true -> c = SPACE.

Lemma words_from_no_space (s : str) :
  forall w, Forall (fun c => isspace c = false) w ->
    Forall (Forall (fun c => isspace c = false)) (words_from w s).
Proof.
  induction s as [|c s IH]; intros w Hw; simpl.
  - destruct w; [constructor|]. constructor; [|constructor]. now apply Forall_rev.
  - destruct (isspace c) eqn:E.
    + destruct w.
      * apply IH. constructor.
      * constructor; [now apply Forall_rev | apply IH; constructor].
    + apply IH. now constructor.
Qed.

Lemma join_plain_spaced (ws : list str) :
  Forall (Forall (fun c => isspace c = false)) ws -> plain_spaced (join [SPACE] ws).
Proof.
  induction 1 as [|w ws Hw Hws IH]; intros c Hin Hsp; [destruct Hin|].
  assert (Hword : In c w -> c = SPACE).
  { intros Hc. rewrite List.Forall_forall in Hw. rewrite (Hw c Hc) in Hsp. discriminate. }
  destruct ws as [|w' ws']; simpl in Hin.
  - auto.
  - rewrite in_app_iff in Hin. destruct Hin as [Hc|[Hc|Hc]]; [auto | now symmetry |].
    now apply IH.
Qed.

Lemma dedup_from_Forall `{CT : CaseTables} (P : str -> Prop) (words : list str) :
  Forall P words -> forall seen, Forall P (dedup_slang_from seen words).
Proof.
  induction 1 as [|w ws Hw Hws IH]; intros seen; cbn [dedup_slang_from]; [constructor|].
  destruct (mem (slang_key w) common_slang).
  - destruct (mem (slang_key w) seen); [apply IH | constructor; [exact Hw | apply IH]].
  - constructor; [exact Hw | apply IH].
Qed.

Lemma clean_line_plain_spaced `{CT : CaseTables} (line : str) : plain_spaced (clean_line line).
Proof.
  intros c Hin. unfold clean_line, remove_char in Hin.
  apply List.filter_In in Hin. destruct Hin as [Hin _].
  apply List.filter_In in Hin. destruct Hin as [Hin _].
  revert c Hin. apply join_plain_spaced.
  apply dedup_from_Forall. apply words_from_no_space. constructor.
Qed.

Lemma lines_plain_spaced `{CT : CaseTables} active_users my_name recent lines valid_msgs :
  Forall plain_spaced valid_msgs ->
  Forall plain_spaced (fold_left (line_step active_users my_name recent) lines valid_msgs).
Proof.
  revert valid_msgs. induction lines as [|l lines IH]; intros valid_msgs H; simpl.
  - exact H.
  - apply IH. unfold line_step.
    destruct (is_empty (strip l) || contains SKIP (strip l)); [exact H|].
    destruct (filter_hallucinated active_users my_name (strip l)) as [line|]; [|exact H].
    destruct (mem (strip (str_lower line)) recent); [exact H|].
    destruct (is_empty (clean_line line)); [exact H|].
    destruct (List.existsb _ valid_msgs); [exact H|].
    apply Forall_app. split; [exact H|].
    constructor; [apply clean_line_plain_spaced | constructor].
Qed.

(** X2. Every line [decide_and_respond] returns is one line of words
    separated by plain spaces: it holds no newline, and no white space
    other than the space character. *)
Theorem reactive_lines_are_single_lines `{CT : CaseTables}
    (self : KirgBrain) (chat_history : list (str * str)) (my_name : str)
    (is_direct : bool) (msgs : list str) :
  decide_and_respond self chat_history my_name is_direct = Some msgs ->
  Forall (fun m => has_char NL m = false /\ plain_spaced m) msgs.
Proof.
  intros H. destruct (decide_and_respond_lines _ _ _ _ _ H) as (response & v & valid & -> & E).
  assert (Hp : Forall plain_spaced (v :: valid)).
  { rewrite E. apply lines_plain_spaced. constructor. }
  change (Forall (fun m => has_char NL m = false /\ plain_spaced m) (firstn 3 (v :: valid))).
  apply Forall_take. eapply Forall_impl; [exact Hp|].
  intros m Hm. split; [|exact Hm].
  destruct (has_char NL m) eqn:Hnl; [|reflexivity].
  apply has_char_In in Hnl. specialize (Hm NL Hnl eq_refl). discriminate.
Qed.

Lemma reactive_lines_are_single_lines_witness :
  decide_and_respond (Sample.answering (lit "oi   gente" ++ [9] ++ lit "boa"))
    Sample.history (lit "Ian") false
  = Some [lit "oi gente boa"]
  /\ Forall (fun m => has_char NL m = false /\ plain_spaced m) [lit "oi gente boa"].
Proof.
  assert (E : decide_and_respond (Sample.answering (lit "oi   gente" ++ [9] ++ lit "boa"))
                Sample.history (lit "Ian") false
              = Some [lit "oi gente boa"]) by (vm_compute; reflexivity).
  split; [exact E|].
  exact (reactive_lines_are_single_lines _ _ _ _ _ E).
Defined.

(** ** brain.py: the provider's answer *)

Lemma lstrip_head (s : str) (c : char) : head (lstrip s) = Some c -> isspace c = false.
Proof.
  induction s as [|x s IH]; simpl; [discriminate|].
  destruct (isspace x) eqn:E; [exact IH|]. simpl. now intros [= <-].
Qed.

Lemma lstrip_app_single (l : str) (c : char) :
  lstrip (l ++ [c]) = match lstrip l with [] => lstrip [c] | _ :: _ => lstrip l ++ [c] end.
Proof.
  induction l as [|x l IH]; [reflexivity|].
  simpl. destruct (isspace x); [exact IH | reflexivity].
Qed.

Lemma rstrip_cons (c : char) (s : str) :
  rstrip (c :: s)
  = match rstrip s with
    | [] => if isspace c then [] else [c]
    | _ :: _ => c :: rstrip s
    end.
Proof.
  unfold rstrip. simpl. rewrite lstrip_app_single.
  destruct (lstrip (rev s)) as [|y r] eqn:E; simpl.
  - now destruct (isspace c).
  - rewrite rev_app_distr. simpl.
    destruct (rev r ++ [y]) eqn:E'; [|reflexivity].
    now destruct (rev r).
Qed.

Lemma rstrip_head (s : str) (c : char) :
  head s = Some c -> isspace c = false -> head (rstrip s) = Some c.
Proof.
  destruct s as [|x s]; simpl; [discriminate|]. intros [= ->] Hc.
  rewrite rstrip_cons, Hc. now destruct (rstrip s).
Qed.

Lemma last_rev (s : str) : last (rev s) = head s.
Proof. destruct s as [|x s]; [reflexivity|]. simpl. apply last_snoc. Qed.

Lemma strip_ends (s : str) (c : char) :
  head (strip s) = Some c \/ last (strip s) = Some c -> isspace c = false.
Proof.
  unfold strip. intros [H|H].
  - destruct (lstrip s) as [|x a] eqn:E; [discriminate|].
    assert (Hx : isspace x = false) by (apply (lstrip_head s); now rewrite E).
    rewrite (rstrip_head (x :: a) x eq_refl Hx) in H. now injection H as <-.
  - unfold rstrip in H. rewrite last_rev in H. exact (lstrip_head _ _ H).
Qed.

(** X3. The answer [_generate_response] hands to the decision functions
    neither starts nor ends with white space. *)
Theorem generated_answer_is_stripped `{CT : CaseTables}
    (self : KirgBrain) (system_prompt user_prompt : str) (temperature : Q)
    (max_tokens : Z) (response : str) (c : char) :
  _generate_response self system_prompt user_prompt temperature max_tokens = Some response ->
  head response = Some c \/ last response = Some c ->
  isspace c = false.
Proof.
  unfold _generate_response.
  destruct (provider_call _ _ _ _ _) as [[|text]|]; try discriminate.
  intros [= <-]. apply strip_ends.
Qed.

Lemma generated_answer_is_stripped_witness :
  _generate_response (Sample.answering (lit "  oi gente " ++ [NL])) [] [] (7 # 10)%Q 150%Z
  = Some (lit "oi gente")
  /\ isspace 111 = false.
Proof.
  assert (E : _generate_response (Sample.answering (lit "  oi gente " ++ [NL])) [] []
                (7 # 10)%Q 150%Z = Some (lit "oi gente")) by (vm_compute; reflexivity).
  split; [exact E|].
  exact (generated_answer_is_stripped _ _ _ _ _ _ 111 E (or_introl eq_refl)).
Defined.

(** X4. A brain without a usable provider (no OpenRouter client, and no
    Gemini model or another provider name than gemini) never answers a
    message and always breaks the silence with the canned line. *)
Theorem unconfigured_brain `{CT : CaseTables}
    (self : KirgBrain) (chat_history : list (str * str)) (my_name : str) (is_direct : bool) :
  client self = None ->
  gemini_model self = None \/ provider self <> lit "gemini" ->
  decide_and_respond self chat_history my_name is_direct = None
  /\ decide_proactive_message self chat_history my_name = Some [boredom_line].
Proof.
  intros Hc Hg.
  assert (E : forall sp up t m, _generate_response self sp up t m = None).
  { intros. unfold _generate_response, provider_call. rewrite Hc.
    destruct Hg as [Hg|Hg].
    - rewrite Hg. now destruct (str_eqb _ _).
    - apply str_eqb_neq in Hg. now rewrite Hg. }
  unfold decide_and_respond, decide_proactive_message. now rewrite !E.
Qed.

Lemma unconfigured_brain_witness :
  let nobody := {| provider := lit "gemini"; gemini_model := None; client := None |} in
  client nobody = None
  /\ decide_and_respond nobody Sample.history (lit "Ian") true = None
  /\ decide_proactive_message nobody Sample.history (lit "Ian") = Some [boredom_line].
Proof.
  intros nobody. split; [reflexivity|].
  exact (unconfigured_brain nobody Sample.history (lit "Ian") true eq_refl (or_introl eq_refl)).
Defined.

(** X5. The proactive decision reads the last five entries of the history
    only: what was said before them changes nothing. *)
Theorem proactive_reads_last_five `{CT : CaseTables}
    (self : KirgBrain) (older recent : list (str * str)) (my_name : str) :
  (5 <= length recent)%nat ->
  decide_proactive_message self (older ++ recent) my_name
  = decide_proactive_message self recent my_name.
Proof.
  intros H.
  assert (E : last5 (older ++ recent) = last5 recent).
  { unfold last5. rewrite length_app, List.skipn_app.
    rewrite List.skipn_all2 by lia.
    replace (length older + length recent - 5 - length older)%nat
      with (length recent - 5)%nat by lia.
    reflexivity. }
  unfold decide_proactive_message, proactive_user_prompt. now rewrite E.
Qed.

Lemma proactive_reads_last_five_witness :
  let recent := [(lit "a", lit "1"); (lit "b", lit "2"); (lit "c", lit "3");
                 (lit "d", lit "4"); (lit "e", lit "5")] in
  (5 <= length recent)%nat
  /\ decide_proactive_message (Sample.answering (lit "oi")) (Sample.history ++ recent) (lit "Ian")
     = decide_proactive_message (Sample.answering (lit "oi")) recent (lit "Ian").
Proof.
  intros recent.
  assert (H : (5 <= length recent)%nat) by (simpl; lia).
  split; [exact H|].
  exact (proactive_reads_last_five (Sample.answering (lit "oi")) Sample.history recent
           (lit "Ian") H).
Defined.

(** ** brain.py: the participants of the prompt *)

Lemma set_add_In (x y : str) (s : list str) : In y (set_add x s) <-> y = x \/ In y s.
Proof.
  unfold set_add. destruct (mem x s) eqn:E.
  - apply mem_In in E. split; [auto | intros [->|H]; assumption].
  - rewrite in_app_iff. simpl. split; [intros [H|[H|[]]]; auto | intros [H|H]; auto].
Qed.

Lemma set_add_NoDup (x : str) (s : list str) : NoDup s -> NoDup (set_add x s).
Proof.
  intros H. unfold set_add. destruct (mem x s) eqn:E; [exact H|].
  apply NoDup_snoc; [exact H | now apply mem_not_In].
Qed.

Lemma collect_users_from (chat_history : list (str * str)) :
  forall s, NoDup s ->
    NoDup (fold_left (fun s '(author, _) => set_add author s) chat_history s)
    /\ forall a, In a (fold_left (fun s '(author, _) => set_add author s) chat_history s)
                 <-> In a s \/ In a (List.map fst chat_history).
Proof.
  induction chat_history as [|[author content] h IH]; intros s Hs; simpl.
  - split; [exact Hs | intros a; tauto].
  - destruct (IH (set_add author s) (set_add_NoDup author s Hs)) as [Hnd Hin].
    split; [exact Hnd|]. intros a. rewrite Hin, set_add_In.
    split; [intros [[->|H]|H]; auto | intros [H|[<-|H]]; auto].
Qed.

(** X6. The participants listed in the reactive prompt are the authors of
    the history, each of them once. *)
Theorem participants_are_the_authors (chat_history : list (str * str)) :
  NoDup (collect_users chat_history)
  /\ forall a, In a (collect_users chat_history) <-> In a (List.map fst chat_history).
Proof.
  destruct (collect_users_from chat_history [] NoDup_nil_2) as [Hnd Hin].
  split; [exact Hnd|]. intros a. unfold collect_users. rewrite Hin. simpl. tauto.
Qed.

(** ** main.py: the known users *)

(** The aliases under which [_remember_user] may file a user. *)
Definition aliases_of `{CT : CaseTables} (u : User) : list str :=
  str_lower (user_name u) :: str_lower (display_name u)
  :: match nick u with Some n => [str_lower n] | None => [] end.

Lemma dict_get_set_eq (k v : str) (d : list (str * str)) : dict_get k (dict_set k v d) = Some v.
Proof.
  induction d as [|[k' v'] d IH]; simpl.
  - now rewrite str_eqb_refl.
  - destruct (str_eqb k k') eqn:E; simpl; rewrite ?str_eqb_refl, ?E; auto.
Qed.

Lemma dict_get_set_ne (k k' v : str) (d : list (str * str)) :
  k <> k' -> dict_get k' (dict_set k v d) = dict_get k' d.
Proof.
  intros Hne. induction d as [|[k0 v0] d IH]; simpl.
  - assert (E : str_eqb k' k = false) by (apply str_eqb_neq; congruence). now rewrite E.
  - destruct (str_eqb k k0) eqn:E; simpl.
    + apply str_eqb_eq in E. subst k0.
      assert (E' : str_eqb k' k = false) by (apply str_eqb_neq; congruence). now rewrite E'.
    + destruct (str_eqb k' k0); [reflexivity | exact IH].
Qed.

Lemma dict_set_keys (k v : str) (d : list (str * str)) :
  List.map fst (dict_set k v d)
  = if mem k (List.map fst d) then List.map fst d else List.map fst d ++ [k].
Proof.
  induction d as [|[k' v'] d IH]; simpl; [reflexivity|].
  destruct (str_eqb k k') eqn:E; simpl.
  - apply str_eqb_eq in E. now subst.
  - rewrite IH. now destruct (mem k (List.map fst d)).
Qed.

Lemma dict_set_NoDup (k v : str) (d : list (str * str)) :
  NoDup (List.map fst d) -> NoDup (List.map fst (dict_set k v d)).
Proof.
  intros H. rewrite dict_set_keys. destruct (mem k (List.map fst d)) eqn:E; [exact H|].
  apply NoDup_snoc; [exact H | now apply mem_not_In].
Qed.

Lemma dict_set_all (v : str) (keys : list str) :
  forall d,
    let d' := fold_left (fun d k => dict_set k v d) keys d in
    (forall k, In k keys -> dict_get k d' = Some v)
    /\ (forall k, ~ In k keys -> dict_get k d' = dict_get k d)
    /\ (NoDup (List.map fst d) -> NoDup (List.map fst d')).
Proof.
  induction keys as [|k0 keys IH]; intros d; simpl.
  - repeat split; [intros k [] | auto].
  - destruct (IH (dict_set k0 v d)) as (Hin & Hout & Hnd). repeat split.
    + intros k [->|Hk].
      * destruct (mem k keys) eqn:Hk.
        -- apply Hin. now apply mem_In.
        -- apply mem_not_In in Hk. rewrite (Hout k Hk). apply dict_get_set_eq.
      * now apply Hin.
    + intros k Hk. rewrite Hout by tauto. apply dict_get_set_ne. tauto.
    + intros H. apply Hnd, dict_set_NoDup, H.
Qed.

(** The keys [_remember_user] writes for a user that is no bot. *)
Lemma remember_user_keys `{CT : CaseTables} (self : KirgClient) (u : User) :
  is_bot u = false ->
  exists keys,
    known_users (_remember_user self u)
    = fold_left (fun d k => dict_set k (mention u) d) keys (known_users self)
    /\ In (str_lower (user_name u)) keys
    /\ (display_name u <> [] -> In (str_lower (display_name u)) keys)
    /\ (forall n, nick u = Some n -> n <> [] -> In (str_lower n) keys)
    /\ (forall k, In k keys -> In k (aliases_of u)).
Proof.
  intros Hb. unfold _remember_user. rewrite Hb. eexists. split; [reflexivity|].
  set (name := str_lower (user_name u)). set (disp := str_lower (display_name u)).
  set (keys1 := if negb (is_empty (display_name u)) && negb (str_eqb disp name)
                then [name] ++ [disp] else [name]).
  assert (H1 : In name keys1) by (subst keys1; destruct (_ && _); simpl; auto).
  assert (H2 : display_name u <> [] -> In disp keys1).
  { intros Hd. subst keys1. destruct (display_name u) eqn:Ed; [contradiction|]. simpl.
    destruct (str_eqb disp name) eqn:E; simpl; [|auto].
    apply str_eqb_eq in E. auto. }
  assert (H3 : forall k, In k keys1 -> k = name \/ k = disp).
  { intros k. subst keys1. destruct (_ && _); simpl; intuition congruence. }
  unfold aliases_of. fold name disp.
  destruct (nick u) as [n|]; [|repeat split; auto; [discriminate | intros k Hk; simpl;
                                                   destruct (H3 k Hk); auto]].
  destruct (negb (is_empty n) && negb (mem (str_lower n) keys1)) eqn:En.
  - repeat split.
    + apply in_app_iff. auto.
    + intros Hd. apply in_app_iff. auto.
    + intros n' [= <-] _. apply in_app_iff. simpl. auto.
    + intros k Hk. apply in_app_iff in Hk. simpl.
      destruct Hk as [Hk|[Hk|[]]]; [destruct (H3 k Hk); auto | auto].
  - repeat split; auto.
    + intros n' [= <-] Hn. destruct n as [|c n]; [contradiction|]. simpl in En.
      apply negb_false_iff in En. now apply mem_In.
    + intros k Hk. simpl. destruct (H3 k Hk); auto.
Qed.

(** X7. Once [_remember_user] has seen a user that is no bot, the user's
    name, display name and nickname (each in lower case, the last two when
    not empty) all resolve to the user's mention. *)
Theorem remembered_user_resolves `{CT : CaseTables} (self : KirgClient) (u : User) :
  is_bot u = false ->
  let known := known_users (_remember_user self u) in
  dict_get (str_lower (user_name u)) known = Some (mention u)
  /\ (display_name u <> [] -> dict_get (str_lower (display_name u)) known = Some (mention u))
  /\ (forall n, nick u = Some n -> n <> [] ->
        dict_get (str_lower n) known = Some (mention u)).
Proof.
  intros Hb known.
  destruct (remember_user_keys self u Hb) as (keys & E & H1 & H2 & H3 & _).
  destruct (dict_set_all (mention u) keys (known_users self)) as (Hin & _ & _).
  subst known. rewrite E. repeat split.
  - now apply Hin.
  - intros Hd. now apply Hin, H2.
  - intros n Hn Hne. now apply Hin, (H3 n).
Qed.

Lemma remembered_user_resolves_witness :
  is_bot Sample.ana = false
  /\ dict_get (lit "ana") (known_users (_remember_user Sample.client0 Sample.ana))
     = Some (lit "<@2>").
Proof.
  split; [reflexivity|].
  exact (proj1 (remembered_user_resolves Sample.client0 Sample.ana eq_refl)).
Defined.

(** X8. [_remember_user] leaves every alias that is not one of the user's
    own as it was, keeps the aliases distinct, and changes nothing for a
    bot. *)
Theorem remember_user_keeps_the_others `{CT : CaseTables} (self : KirgClient) (u : User) :
  (forall k, ~ In k (aliases_of u) ->
     dict_get k (known_users (_remember_user self u)) = dict_get k (known_users self))
  /\ (NoDup (List.map fst (known_users self)) ->
      NoDup (List.map fst (known_users (_remember_user self u))))
  /\ (is_bot u = true -> _remember_user self u = self).
Proof.
  destruct (is_bot u) eqn:Hb.
  - unfold _remember_user. rewrite Hb. auto.
  - destruct (remember_user_keys self u Hb) as (keys & E & _ & _ & _ & Hsub).
    destruct (dict_set_all (mention u) keys (known_users self)) as (_ & Hout & Hnd).
    rewrite E. repeat split.
    + intros k Hk. apply Hout. intros Hin. apply Hk, Hsub, Hin.
    + exact Hnd.
    + discriminate.
Qed.

Lemma remember_user_keeps_the_others_witness :
  ~ In (lit "ian") (aliases_of Sample.ana)
  /\ dict_get (lit "ian") (known_users (_remember_user Sample.client0 Sample.ana))
     = Some (lit "@U1").
Proof.
  assert (H : ~ In (lit "ian") (aliases_of Sample.ana)).
  { vm_compute. intros [H|[H|[]]]; discriminate. }
  split; [exact H|].
  rewrite (proj1 (remember_user_keeps_the_others Sample.client0 Sample.ana) _ H).
  reflexivity.
Defined.

(** ** main.py: the conversation memory *)

(** Every memory holds at most [HISTORY_LIMIT] entries. *)
Definition memories_bounded (self : KirgClient) : Prop :=
  forall key d, chat_memories self !! key = Some d -> (length d <= HISTORY_LIMIT)%nat.

(** The memory a message belongs to: the one of its channel, or of its
    author for a private message. *)
Definition conversation_of (message : Message) : memory_id :=
  match guild message with
  | Some _ => ChannelKey (channel_id message)
  | None => DmKey (user_id (author message))
  end.

(** The memory a suspended task may write to when it is resumed. *)
Definition written_by (p : pc) : option memory_id :=
  match p with
  | LockQueue message => Some (DmKey (user_id (author message)))
  | TypingDelay loop _ => Some (sl_memory_id loop)
  | _ => None
  end.

(** Between two suspensions a task leaves the memories alone or appends
    one entry to the memory [key]. *)
Definition memory_effect (self self' : KirgClient) (key : option memory_id) : Prop :=
  chat_memories self' = chat_memories self
  \/ exists k entry,
       key = Some k
       /\ chat_memories self'
          = <[k := deque_append entry (memory_of self k)]> (chat_memories self).

Lemma deque_append_length {A} (x : A) (d : list A) :
  (length (deque_append x d) <= HISTORY_LIMIT)%nat.
Proof.
  unfold deque_append. rewrite List.length_skipn, length_app. simpl. lia.
Qed.

Lemma deque_append_fifo {A} (x : A) (d : list A) :
  (length d <= HISTORY_LIMIT)%nat ->
  deque_append x d
  = (if (length d <? HISTORY_LIMIT)%nat then d else List.tl d) ++ [x].
Proof.
  intros H. unfold deque_append. rewrite length_app. simpl.
  destruct (length d <? HISTORY_LIMIT)%nat eqn:E.
  - apply Nat.ltb_lt in E.
    replace (length d + 1 - HISTORY_LIMIT)%nat with O by lia. reflexivity.
  - apply Nat.ltb_ge in E.
    replace (length d + 1 - HISTORY_LIMIT)%nat with 1%nat by lia.
    destruct d as [|y d]; [simpl in E; unfold HISTORY_LIMIT in E; lia | reflexivity].
Qed.

(** X9. Appending to a memory that holds fewer than twelve entries adds the
    entry at the end; appending to a full one also drops the oldest entry.
    The memories of the other conversations are not touched. *)
Theorem remember_is_fifo (self : KirgClient) (key : memory_id) (entry : str * str) :
  (length (memory_of self key) <= HISTORY_LIMIT)%nat ->
  memory_of (remember self key entry) key
  = (if (length (memory_of self key) <? HISTORY_LIMIT)%nat
     then memory_of self key else List.tl (memory_of self key)) ++ [entry]
  /\ (length (memory_of (remember self key entry) key) <= HISTORY_LIMIT)%nat
  /\ forall other, other <> key ->
       chat_memories (remember self key entry) !! other = chat_memories self !! other.
Proof.
  intros H.
  assert (E : memory_of (remember self key entry) key
              = deque_append entry (memory_of self key)).
  { unfold memory_of at 1, remember. cbn [chat_memories set_chat_memories].
    now rewrite lookup_insert_eq. }
  rewrite E. split; [now apply deque_append_fifo|].
  split; [apply deque_append_length|].
  intros other Hne. unfold remember. cbn [chat_memories set_chat_memories].
  apply lookup_insert_ne. congruence.
Qed.

Lemma remember_is_fifo_witness :
  let full := set_chat_memories Sample.client0
                {[ ChannelKey 7 := List.repeat (lit "Ana", lit "oi") 12 ]} in
  (length (memory_of full (ChannelKey 7)) <= HISTORY_LIMIT)%nat
  /\ memory_of (remember full (ChannelKey 7) (lit "Bob", lit "kkk")) (ChannelKey 7)
     = List.repeat (lit "Ana", lit "oi") 11 ++ [(lit "Bob", lit "kkk")].
Proof.
  intros full.
  assert (H : (length (memory_of full (ChannelKey 7)) <= HISTORY_LIMIT)%nat)
    by (vm_compute; lia).
  split; [exact H|].
  rewrite (proj1 (remember_is_fifo full (ChannelKey 7) (lit "Bob", lit "kkk") H)).
  vm_compute. reflexivity.
Defined.

Section Memories.
Context `{CT : CaseTables}.

Lemma memory_same (self self' : KirgClient) (key : option memory_id) :
  chat_memories self' = chat_memories self -> memory_effect self self' key.
Proof. intros H. now left. Qed.

Lemma leave_cycle_memory (self : KirgClient) kind env :
  chat_memories (after (leave_cycle self kind env)) = chat_memories self.
Proof. now destruct kind. Qed.

Lemma loop_head_memory (self : KirgClient) loop env :
  chat_memories (after (loop_head self loop env)) = chat_memories self.
Proof.
  unfold loop_head. destruct (nth_error _ _); [reflexivity | apply leave_cycle_memory].
Qed.

Lemma deliver_memory (self : KirgClient) loop formatted_line env :
  memory_effect self (after (deliver self loop formatted_line env))
    (Some (sl_memory_id loop)).
Proof.
  unfold deliver. destruct (accepted env); [|left; apply loop_head_memory].
  destruct (chat_memories self !! sl_memory_id loop) as [memory|];
    [|left; cbn [after]; apply loop_head_memory].
  destruct (nth_error (sl_response_list loop) (sl_i loop)) as [line|];
    [|left; cbn [after]; apply loop_head_memory].
  right. exists (sl_memory_id loop), (sl_my_name loop, line). split; [reflexivity|].
  destruct (sl_i loop <? length (sl_response_list loop) - 1)%nat; cbn [after].
  - reflexivity.
  - now rewrite loop_head_memory.
Qed.

Lemma decided_memory (self : KirgClient) kind cycle history_list my_name is_direct memory
    reply_to env :
  chat_memories
    (after (decided self kind cycle history_list my_name is_direct memory reply_to env))
  = chat_memories self.
Proof.
  unfold decided.
  destruct (match kind with
            | Proactive => decide_proactive_message (brain self) history_list my_name
            | _ => decide_and_respond (brain self) history_list my_name is_direct
            end) as [[|line lines]|];
    [apply leave_cycle_memory | apply loop_head_memory | apply leave_cycle_memory].
Qed.

Lemma handle_dm_memory (self : KirgClient) (message : Message) (cycle : nat) :
  memory_effect self (after (_handle_dm self message cycle))
    (Some (DmKey (user_id (author message)))).
Proof.
  unfold _handle_dm. destruct (processing_lock self); [now left|].
  right. eexists _, _. split; reflexivity.
Qed.

Lemma on_message_memory (self : KirgClient) (message : Message) (env : readings)
    (cycle : nat) :
  memory_effect self (after (on_message self message env cycle))
    (Some (conversation_of message)).
Proof.
  unfold on_message, conversation_of.
  destruct (user_id (author message) =? user_id (user self))%Z; [now left|].
  destruct (guild message) as [g|] eqn:Hg; [|apply handle_dm_memory].
  destruct (negb _); [now left|].
  destruct (processing_lock self); [now left|].
  destruct (remember_user_shape self (author message)) as [ks1 E1]. rewrite E1.
  destruct (get_real_name_shape (set_known_users self ks1) (author message) (Some g))
    as [ks2 E2].
  destruct (get_real_name (set_known_users self ks1) (author message) (Some g))
    as [self2 real_name]. cbn [fst] in E2. subst self2.
  right. eexists _, _. split; [reflexivity|].
  destruct (mentioned message || bool_decide _); reflexivity.
Qed.

Lemma tick_memory (self : KirgClient) (env : readings) (cycle : nat) :
  chat_memories (after (tick self env cycle)) = chat_memories self.
Proof.
  unfold tick.
  destruct (target_channel_id self) as [target|]; [|reflexivity].
  destruct (target =? 0)%Z; [reflexivity|].
  destruct (negb _); [|reflexivity].
  destruct (last_was_mine self target); [reflexivity|].
  destruct (processing_lock self); [reflexivity|].
  destruct (channel_found env); [|reflexivity].
  now destruct (me_user (set_processing_lock self true)).
Qed.

Lemma resume_memory (self : KirgClient) (p : pc) (env : readings) (cycle : nat) :
  memory_effect self (after (resume self p env cycle)) (written_by p).
Proof.
  destruct p; cbn [resume written_by].
  - now left.
  - left. apply tick_memory.
  - left. unfold after_reading_delay.
    destruct (token_differs _ _ _); [reflexivity|].
    now destruct (processing_lock self).
  - apply handle_dm_memory.
  - now left.
  - left. apply decided_memory.
  - apply deliver_memory.
  - left. apply loop_head_memory.
Qed.

Lemma memory_effect_bounded (self self' : KirgClient) (key : option memory_id) :
  memory_effect self self' key -> memories_bounded self -> memories_bounded self'.
Proof.
  intros [E|(k & entry & _ & E)] Hb key' d; rewrite E; [apply Hb|].
  destruct (decide (k = key')) as [->|Hne].
  - rewrite lookup_insert_eq. intros [= <-]. apply deque_append_length.
  - rewrite lookup_insert_ne by exact Hne. apply Hb.
Qed.

Lemma memory_effect_frame (self self' : KirgClient) (key : option memory_id)
    (other : memory_id) :
  memory_effect self self' key -> key <> Some other ->
  chat_memories self' !! other = chat_memories self !! other.
Proof.
  intros [E|(k & entry & -> & E)] Hne; rewrite E; [reflexivity|].
  apply lookup_insert_ne. congruence.
Qed.

End Memories.

(** X10. Whatever the event loop does, no memory ever holds more than
    twelve entries, provided none did when the client started (the
    memories preloaded by [preload_history] are such). *)
Theorem memories_stay_bounded `{CT : CaseTables} (self : KirgClient) (evs : list event) :
  memories_bounded self ->
  memories_bounded (kirg (run (started self) evs)).
Proof.
  intros Hb.
  assert (H0 : memories_bounded (kirg (started self))) by exact Hb.
  revert H0. generalize (started self). induction evs as [|ev evs IH]; intros sys H; simpl.
  - exact H.
  - apply IH. destruct ev as [message env|task env]; cbn [exec].
    + cbn [kirg]. eapply memory_effect_bounded; [apply on_message_memory | exact H].
    + destruct (tasks sys !! task) as [p|]; [|exact H].
      cbn [kirg]. eapply memory_effect_bounded; [apply resume_memory | exact H].
Qed.

Lemma memories_stay_bounded_witness :
  memories_bounded Sample.client0
  /\ memories_bounded
       (kirg (run (started Sample.client0)
                [MessageReceived (Sample.said (lit "oi")) (Sample.at_time 1);
                 Resumed 1 (Sample.at_time 2)])).
Proof.
  assert (H : memories_bounded Sample.client0).
  { intros key d Hd. vm_compute in Hd. discriminate. }
  split; [exact H|].
  exact (memories_stay_bounded Sample.client0 _ H).
Defined.

(** X11. A message handler changes the memory of the conversation of its
    message only; a message of the bot itself, and a guild message outside
    the followed channel, leave the whole client as it was. *)
Theorem message_touches_its_conversation_only `{CT : CaseTables}
    (self : KirgClient) (message : Message) (env : readings) (cycle : nat) :
  let r := on_message self message env cycle in
  (forall other, other <> conversation_of message ->
     chat_memories (after r) !! other = chat_memories self !! other)
  /\ (user_id (author message) = user_id (user self) -> after r = self /\ next r = Finished)
  /\ (guild message <> None -> target_channel_id self <> Some (channel_id message) ->
      after r = self /\ next r = Finished).
Proof.
  intros r. split; [|split].
  - intros other Hne. eapply memory_effect_frame; [apply on_message_memory|]. congruence.
  - intros Hid. subst r. unfold on_message. apply Z.eqb_eq in Hid. now rewrite Hid.
  - intros Hg Ht. subst r. unfold on_message.
    destruct (user_id (author message) =? user_id (user self))%Z; [now split|].
    destruct (guild message) as [g|]; [|contradiction].
    rewrite bool_decide_eq_false_2 by congruence. now split.
Qed.

Lemma message_touches_its_conversation_only_witness :
  let elsewhere :=
    {| author := Sample.ana; guild := Some Sample.server; channel_id := 8%Z;
       content := lit "oi"; mentioned := true; reference_author := None |} in
  guild elsewhere <> None
  /\ target_channel_id Sample.client0 <> Some (channel_id elsewhere)
  /\ after (on_message Sample.client0 elsewhere (Sample.at_time 1) O) = Sample.client0.
Proof.
  intros elsewhere.
  assert (Hg : guild elsewhere <> None) by discriminate.
  assert (Ht : target_channel_id Sample.client0 <> Some (channel_id elsewhere))
    by discriminate.
  split; [exact Hg|]. split; [exact Ht|].
  exact (proj1 (proj2 (proj2 (message_touches_its_conversation_only Sample.client0 elsewhere
                                (Sample.at_time 1) O)) Hg Ht)).
Defined.

(** ** main.py: the pending mention *)

(** [is_direct] of [on_message]. *)
Definition addresses_bot (self : KirgClient) (message : Message) : bool :=
  mentioned message || bool_decide (reference_author message = Some (user_id (user self))).

Lemma on_message_pending `{CT : CaseTables}
    (self : KirgClient) (message : Message) (env : readings) (cycle : nat) (g : Guild) :
  user_id (author message) <> user_id (user self) ->
  guild message = Some g ->
  target_channel_id self = Some (channel_id message) ->
  processing_lock self = false ->
  channel_mentions_pending (after (on_message self message env cycle))
  = if addresses_bot self message
    then <[channel_id message := true]> (channel_mentions_pending self)
    else channel_mentions_pending self.
Proof.
  intros Hid Hg Ht Hl. unfold on_message, addresses_bot.
  apply Z.eqb_neq in Hid. rewrite Hid, Hg, Ht, Hl.
  rewrite bool_decide_eq_true_2 by reflexivity. cbn [negb].
  destruct (remember_user_shape self (author message)) as [ks1 E1]. rewrite E1.
  destruct (get_real_name_shape (set_known_users self ks1) (author message) (Some g))
    as [ks2 E2].
  destruct (get_real_name (set_known_users self ks1) (author message) (Some g))
    as [self2 real_name]. cbn [fst] in E2. subst self2. cbn.
  destruct (mentioned message || bool_decide _); reflexivity.
Qed.

(** X12. A message that mentions the bot or replies to it raises the
    pending flag of its channel, and a message that does neither leaves the
    flag as it is; the next wait cycle of the channel that starts a
    decision takes the flag as its direct mode and as its choice to reply,
    and lowers it.  So a mention whose own cycle was superseded is served
    by the cycle that does start. *)
Theorem pending_mention_is_served_once `{CT : CaseTables}
    (self : KirgClient) (message : Message) (env : readings) (cycle : nat) (g : Guild) :
  user_id (author message) <> user_id (user self) ->
  guild message = Some g ->
  target_channel_id self = Some (channel_id message) ->
  processing_lock self = false ->
  let ch := channel_id message in
  let self' := after (on_message self message env cycle) in
  (addresses_bot self message = true -> channel_mentions_pending self' !! ch = Some true)
  /\ (addresses_bot self message = false ->
      channel_mentions_pending self' !! ch = channel_mentions_pending self !! ch)
  /\ (forall (s : KirgClient) (waiting : Message) (t : Q) (c : nat),
        in_cycle (next (after_reading_delay s waiting t c)) = true ->
        let flag := default false (channel_mentions_pending s !! channel_id waiting) in
        (exists history_list my_name,
            next (after_reading_delay s waiting t c)
            = Deciding Reactive c history_list my_name flag
                (ChannelKey (channel_id waiting)) flag)
        /\ channel_mentions_pending (after (after_reading_delay s waiting t c))
             !! channel_id waiting = Some false).
Proof.
  intros Hid Hg Ht Hl ch self'.
  pose proof (on_message_pending self message env cycle g Hid Hg Ht Hl) as E.
  fold self' in E. split; [|split].
  - intros Ha. rewrite E, Ha. apply lookup_insert_eq.
  - intros Ha. now rewrite E, Ha.
  - intros s waiting t c. unfold after_reading_delay.
    destruct (token_differs s (channel_id waiting) t); [discriminate|].
    destruct (processing_lock s); [discriminate|].
    intros _. cbn. split; [eauto | apply lookup_insert_eq].
Qed.

Lemma pending_mention_is_served_once_witness :
  let mention_msg :=
    {| author := Sample.ana; guild := Some Sample.server; channel_id := 7%Z;
       content := lit "oi <@1>"; mentioned := true; reference_author := None |} in
  let later := Sample.said (lit "alguem?") in
  let s1 := after (on_message Sample.client0 mention_msg (Sample.at_time 1) O) in
  let s2 := after (on_message s1 later (Sample.at_time 2) 1%nat) in
  processing_lock Sample.client0 = false
  /\ channel_mentions_pending s1 !! 7%Z = Some true
  /\ channel_mentions_pending s2 !! 7%Z = Some true.
Proof.
  intros mention_msg later s1 s2.
  assert (Hid : user_id (author mention_msg) <> user_id (user Sample.client0))
    by (vm_compute; discriminate).
  destruct (pending_mention_is_served_once Sample.client0 mention_msg (Sample.at_time 1) O
              Sample.server Hid eq_refl eq_refl eq_refl) as (H1 & _ & _).
  split; [reflexivity|]. split; [exact (H1 eq_refl)|].
  vm_compute. reflexivity.
Defined.

(** ** main.py: the proactivity loop *)

Lemma leave_cycle_out (self : KirgClient) kind env :
  in_cycle (next (leave_cycle self kind env)) = false.
Proof. now destruct kind. Qed.

(** X13. A turn of the proactivity loop starts a cycle only when a channel
    is followed, the deadline has passed, the last entry of that channel's
    memory is not the bot's own, the lock is free, the channel is found and
    the bot's user is known; the turn then holds the lock and asks for a
    proactive decision on the memory of the channel under the bot's
    display name.  When the deadline has not passed the turn changes
    nothing; when it has passed and the last entry is the bot's own, or
    the lock is held, the turn only draws a new deadline. *)
Theorem proactive_cycle_starts_only_when `{CT : CaseTables}
    (self : KirgClient) (env : readings) (cycle : nat) :
  (in_cycle (next (tick self env cycle)) = true ->
   exists target me,
     target_channel_id self = Some target /\ target <> 0%Z
     /\ (next_activity_trigger self < clock_now env)%Q
     /\ last_was_mine self target = false
     /\ processing_lock self = false
     /\ channel_found env = true
     /\ me_user self = Some me
     /\ tick self env cycle
        = {| after := set_processing_lock self true;
             next := Deciding Proactive cycle (memory_of self (ChannelKey target))
                       (display_name me) false (ChannelKey target) false;
             output := [] |})
  /\ ((clock_now env <= next_activity_trigger self)%Q ->
      tick self env cycle = {| after := self; next := Polling; output := [] |})
  /\ (forall target,
        target_channel_id self = Some target -> target <> 0%Z ->
        (next_activity_trigger self < clock_now env)%Q ->
        last_was_mine self target = true \/ processing_lock self = true ->
        tick self env cycle
        = {| after := _schedule_next_proactivity self env; next := Polling; output := [] |}).
Proof.
  assert (Hle : forall a b, Qle_bool a b = true <-> (a <= b)%Q) by apply Qle_bool_iff.
  assert (Hlt : forall a b, Qle_bool a b = false <-> (b < a)%Q).
  { intros a b. split.
    - intros H. apply Qnot_le_lt. intros Hab. apply (proj2 (Hle _ _)) in Hab. congruence.
    - intros H. destruct (Qle_bool a b) eqn:E; [|reflexivity].
      apply (proj1 (Hle _ _)) in E. exfalso. exact (Qlt_not_le _ _ H E). }
  split; [|split].
  - unfold tick.
    destruct (target_channel_id self) as [target|]; [|discriminate].
    destruct (target =? 0)%Z eqn:E0; [discriminate|].
    destruct (Qle_bool (clock_now env) (next_activity_trigger self)) eqn:Eq;
      [discriminate|]. cbn [negb].
    destruct (last_was_mine self target) eqn:El; [discriminate|].
    destruct (processing_lock self) eqn:Ep; [discriminate|].
    destruct (channel_found env) eqn:Ec;
      [|now rewrite leave_cycle_out].
    destruct (me_user (set_processing_lock self true)) as [me|] eqn:Em; [|discriminate].
    intros _. exists target, me. apply Z.eqb_neq in E0. apply (proj1 (Hlt _ _)) in Eq.
    split; [reflexivity|]. split; [exact E0|]. split; [exact Eq|].
    split; [exact El|]. split; [reflexivity|]. split; [reflexivity|].
    split; [exact Em | reflexivity].
  - intros Hq. apply (proj2 (Hle _ _)) in Hq. unfold tick.
    destruct (target_channel_id self) as [target|]; [|reflexivity].
    destruct (target =? 0)%Z; [reflexivity|]. now rewrite Hq.
  - intros target Ht H0 Hq Hm. apply Z.eqb_neq in H0. apply (proj2 (Hlt _ _)) in Hq.
    unfold tick. rewrite Ht, H0, Hq. cbn [negb].
    destruct Hm as [Hm|Hp].
    + now rewrite Hm.
    + rewrite Hp. now destruct (last_was_mine self target).
Qed.

Lemma proactive_cycle_starts_only_when_witness :
  (clock_now (Sample.at_time 50) <= next_activity_trigger Sample.client0)%Q
  /\ tick Sample.client0 (Sample.at_time 50) O
     = {| after := Sample.client0; next := Polling; output := [] |}
  /\ in_cycle (next (tick Sample.client0 (Sample.at_time 101) O)) = true
  /\ exists target me,
       target_channel_id Sample.client0 = Some target
       /\ me_user Sample.client0 = Some me
       /\ last_was_mine Sample.client0 target = false.
Proof.
  assert (H : (clock_now (Sample.at_time 50) <= next_activity_trigger Sample.client0)%Q)
    by (vm_compute; discriminate).
  assert (Hin : in_cycle (next (tick Sample.client0 (Sample.at_time 101) O)) = true)
    by (vm_compute; reflexivity).
  split; [exact H|]. split.
  - exact (proj1 (proj2 (proactive_cycle_starts_only_when Sample.client0
                           (Sample.at_time 50) O)) H).
  - split; [exact Hin|].
    destruct (proj1 (proactive_cycle_starts_only_when Sample.client0
                       (Sample.at_time 101) O) Hin)
      as (target & me & Ht & _ & _ & Hm & _ & _ & Hme & _).
    exists target, me. split; [exact Ht|]. split; [exact Hme | exact Hm].
Defined.

(** ** main.py: the send loop *)

(** A cycle run on its own: the task is resumed, with the readings of
    [envs] in turn, until it has left its cycle or the readings are used
    up.  The lines it delivers are collected. *)
Fixpoint drive `{CT : CaseTables} (self : KirgClient) (p : pc) (envs : list readings)
    : segment :=
  match envs with
  | [] => {| after := self; next := p; output := [] |}
  | env :: envs' =>
      if in_cycle p then
        let r := resume self p env O in
        let r' := drive (after r) (next r) envs' in
        {| after := after r'; next := next r'; output := output r ++ output r' |}
      else {| after := self; next := p; output := [] |}
  end.

(** A bound on the number of sleeps and calls run in a thread that a task
    in a cycle has still to see completed before it leaves the cycle. *)
Definition budget (p : pc) : nat :=
  match p with
  | DmDelay _ _ => 10
  | Deciding _ _ _ _ _ _ _ => 9
  | TypingDelay loop _ => 2 * (length (sl_response_list loop) - sl_i loop) + 2
  | Pause loop => 2 * (length (sl_response_list loop) - sl_i loop) + 1
  | Finished | Polling | ReadingDelay _ _ | LockQueue _ => 0
  end.

Section SendLoop.
Context `{CT : CaseTables}.

Lemma loop_head_next (self : KirgClient) (loop : send_loop) (env : readings) :
  match nth_error (sl_response_list loop) (sl_i loop) with
  | Some line =>
      loop_head self loop env
      = {| after := self; next := TypingDelay loop (_format_mentions self line);
           output := [] |}
  | None =>
      in_cycle (next (loop_head self loop env)) = false
      /\ processing_lock (after (loop_head self loop env)) = false
      /\ output (loop_head self loop env) = []
  end.
Proof.
  unfold loop_head. destruct (nth_error _ _); [reflexivity | apply leave_cycle_spec].
Qed.

Lemma loop_head_budget (self : KirgClient) (loop : send_loop) (env : readings) :
  in_cycle (next (loop_head self loop env)) = true ->
  (budget (next (loop_head self loop env))
   = 2 * (length (sl_response_list loop) - sl_i loop) + 2
   /\ sl_i loop < length (sl_response_list loop))%nat.
Proof.
  pose proof (loop_head_next self loop env) as H.
  destruct (nth_error (sl_response_list loop) (sl_i loop)) as [line|] eqn:E.
  - rewrite H. intros _. split; [reflexivity|].
    apply nth_error_Some. congruence.
  - destruct H as [H _]. congruence.
Qed.

Lemma decision_length (self : KirgClient) kind history_list my_name is_direct l :
  match kind with
  | Proactive => decide_proactive_message (brain self) history_list my_name
  | _ => decide_and_respond (brain self) history_list my_name is_direct
  end = Some l ->
  (length l <= 3)%nat.
Proof.
  assert (Hp : forall l, decide_proactive_message (brain self) history_list my_name = Some l ->
                 (length l <= 3)%nat).
  { intros l0. unfold decide_proactive_message.
    destruct (_generate_response _ _ _ _ _) as [response|]; [|intros [= <-]; simpl; lia].
    destruct (is_empty response || contains SKIP response); intros [= <-]; simpl; lia. }
  assert (Hr : forall l, decide_and_respond (brain self) history_list my_name is_direct = Some l ->
                 (length l <= 3)%nat).
  { intros l0 H. destruct (decide_and_respond_lines _ _ _ _ _ H) as (? & v & valid & -> & _).
    rewrite length_firstn. lia. }
  destruct kind; auto.
Qed.

(** A task in a cycle that is still in it after a run has a smaller
    budget. *)
Lemma resume_budget (self : KirgClient) (p : pc) (env : readings) (cycle : nat) :
  in_cycle p = true ->
  in_cycle (next (resume self p env cycle)) = true ->
  (budget (next (resume self p env cycle)) < budget p)%nat.
Proof.
  destruct p; cbn [in_cycle resume]; try discriminate; intros _.
  - intros _. cbn. lia.
  - unfold decided.
    destruct (match kind with
              | Proactive => decide_proactive_message (brain self) history_list my_name
              | _ => decide_and_respond (brain self) history_list my_name is_direct
              end) as [[|line lines]|] eqn:E;
      try (rewrite leave_cycle_out; discriminate).
    apply decision_length in E. intros H.
    apply loop_head_budget in H. destruct H as [-> _]. cbn in *. lia.
  - unfold deliver.
    assert (Hnext : forall s,
              in_cycle (next (loop_head s (next_line loop) env)) = true ->
              (budget (next (loop_head s (next_line loop) env))
               < 2 * (length (sl_response_list loop) - sl_i loop) + 2)%nat).
    { intros s H. apply loop_head_budget in H. destruct H as [-> H]. cbn in *. lia. }
    destruct (accepted env); [|apply Hnext].
    destruct (chat_memories self !! sl_memory_id loop); [|cbn [next]; apply Hnext].
    destruct (nth_error (sl_response_list loop) (sl_i loop)); [|cbn [next]; apply Hnext].
    destruct (sl_i loop <? length (sl_response_list loop) - 1)%nat; cbn [next].
    + intros _. cbn. lia.
    + apply Hnext.
  - intros H. apply loop_head_budget in H. destruct H as [-> H]. cbn in *. lia.
Qed.

Lemma drive_leaves (envs : list readings) :
  forall (self : KirgClient) (p : pc),
    processing_lock self = true ->
    in_cycle p = true ->
    (budget p <= length envs)%nat ->
    in_cycle (next (drive self p envs)) = false
    /\ processing_lock (after (drive self p envs)) = false.
Proof.
  induction envs as [|env envs IH]; intros self p Hl Hp Hb.
  - destruct p; cbn in *; try discriminate; lia.
  - cbn [drive]. rewrite Hp. cbn [after next].
    assert (Hheld : in_cycle p = true -> processing_lock self = true) by auto.
    pose proof (resume_spec self p env O Hheld) as Htr.
    destruct (in_cycle_cycle_of p Hp) as [c Hc]. rewrite Hc in Htr.
    destruct Htr as [[(Hin & _ & Hlock)|(Hout & Hlock)] _].
    + apply IH; [exact Hlock | exact Hin |].
      pose proof (resume_budget self p env O Hp Hin). cbn [length] in Hb. lia.
    + destruct envs; cbn [drive]; [|rewrite Hout]; cbn [after next]; auto.
Qed.

End SendLoop.

(** The number of times the task [i] is resumed in a list of events: the
    number of its sleeps and calls run in a thread that complete. *)
Definition resumptions (i : nat) (evs : list event) : nat :=
  length (List.filter (fun ev => match ev with
                                 | Resumed j _ => Nat.eqb i j
                                 | MessageReceived _ _ => false
                                 end) evs).

Lemma budget_positive (p : pc) : in_cycle p = true -> (1 <= budget p)%nat.
Proof. destruct p; cbn; try discriminate; lia. Qed.

(** An event that does not resume the task [i] leaves it where it is. *)
Lemma exec_other `{CT : CaseTables} (sys : System) (ev : event) (i : nat) (p : pc) :
  tasks sys !! i = Some p ->
  match ev with Resumed j _ => i <> j | MessageReceived _ _ => True end ->
  tasks (exec sys ev) !! i = Some p.
Proof.
  intros Hp Hev. destruct ev as [message env|j env]; cbn [exec].
  - cbn [tasks]. rewrite lookup_app_l; [exact Hp|]. eapply lookup_lt_Some, Hp.
  - destruct (tasks sys !! j); [|exact Hp].
    cbn [tasks]. rewrite list_lookup_insert_ne; [exact Hp | congruence].
Qed.

(** X14. A task that holds the lock does not hold it for ever: whatever
    else the event loop runs in between, whatever the provider answers and
    whether the gateway accepts the lines or not, the task has left its
    cycle and freed the lock once [budget] of its sleeps and calls run in a
    thread have completed, at most (ten from the delay of a private
    message, nine from a pending decision, and in the send loop two for
    each line left plus two).  The calls of the gateway are taken to
    return; they are not counted. *)
Theorem held_lock_is_released `{CT : CaseTables} (evs : list event) :
  forall (sys : System) (i : nat) (p : pc),
    consistent sys ->
    tasks sys !! i = Some p ->
    in_cycle p = true ->
    (budget p <= resumptions i evs)%nat ->
    exists pre post q,
      evs = pre ++ post
      /\ tasks (run sys pre) !! i = Some q
      /\ in_cycle q = false
      /\ processing_lock (kirg (run sys pre)) = false.
Proof.
  induction evs as [|ev evs IH]; intros sys i p Hc Hp Hin Hb.
  - pose proof (budget_positive p Hin). cbn in Hb. lia.
  - assert (Hother : match ev with Resumed j _ => i <> j | MessageReceived _ _ => True end ->
                     exists pre post q,
                       ev :: evs = pre ++ post
                       /\ tasks (run sys pre) !! i = Some q /\ in_cycle q = false
                       /\ processing_lock (kirg (run sys pre)) = false).
    { intros Hev.
      assert (Hb' : (budget p <= resumptions i evs)%nat).
      { unfold resumptions in *. cbn [List.filter] in Hb.
        destruct ev as [|j env]; [exact Hb|].
        destruct (Nat.eqb i j) eqn:E; [apply Nat.eqb_eq in E; contradiction | exact Hb]. }
      destruct (IH (exec sys ev) i p (exec_consistent sys ev Hc)
                  (exec_other sys ev i p Hp Hev) Hin Hb')
        as (pre & post & q & -> & Hq & Hout & Hl).
      exists (ev :: pre), post, q. auto. }
    destruct ev as [message env|j env]; [now apply Hother|].
    destruct (decide (i = j)) as [<-|Hne]; [|now apply Hother].
    clear Hother.
    set (r := resume (kirg sys) p env (next_cycle sys)).
    assert (Hexec : exec sys (Resumed i env)
                    = {| kirg := after r; tasks := <[i := next r]> (tasks sys);
                         delivered := delivered sys ++ output r;
                         next_cycle := S (next_cycle sys) |}).
    { cbn [exec]. now rewrite Hp. }
    assert (Hq : tasks (exec sys (Resumed i env)) !! i = Some (next r)).
    { rewrite Hexec. cbn [tasks]. apply list_lookup_insert_eq. eapply lookup_lt_Some, Hp. }
    assert (Hheld : in_cycle p = true -> processing_lock (kirg sys) = true).
    { intros _. apply (lock_is_held sys Hc). eauto. }
    pose proof (resume_spec (kirg sys) p env (next_cycle sys) Hheld) as Htr.
    fold r in Htr. destruct (in_cycle_cycle_of p Hin) as [c Hcyc]. rewrite Hcyc in Htr.
    destruct Htr as [[(Hstay & _ & _)|(Hout & Hlock)] _].
    + pose proof (resume_budget (kirg sys) p env (next_cycle sys) Hin Hstay) as Hless.
      fold r in Hless.
      assert (Hb' : (budget (next r) <= resumptions i evs)%nat).
      { unfold resumptions in *. cbn [List.filter] in Hb.
        rewrite Nat.eqb_refl in Hb. cbn [length] in Hb. lia. }
      destruct (IH (exec sys (Resumed i env)) i (next r)
                  (exec_consistent sys _ Hc) Hq Hstay Hb')
        as (pre & post & q & -> & Hq' & Hout' & Hl').
      exists (Resumed i env :: pre), post, q. auto.
    + exists [Resumed i env], evs, (next r). cbn [run fold_left app].
      repeat split; [exact Hq | exact Hout |]. rewrite Hexec. exact Hlock.
Qed.

Lemma held_lock_is_released_witness :
  let sys := run (started Sample.client0)
               [MessageReceived (Sample.said (lit "oi")) (Sample.at_time 1);
                Resumed 1 (Sample.at_time 2)] in
  let evs := List.repeat (Resumed 1 (Sample.at_time 3)) 9 in
  (exists p, tasks sys !! 1%nat = Some p /\ in_cycle p = true
             /\ (budget p <= resumptions 1 evs)%nat)
  /\ exists pre post q,
       evs = pre ++ post /\ tasks (run sys pre) !! 1%nat = Some q /\ in_cycle q = false
       /\ processing_lock (kirg (run sys pre)) = false.
Proof.
  intros sys evs.
  assert (Hc : consistent sys) by apply run_consistent, started_consistent.
  destruct (tasks sys !! 1%nat) as [p|] eqn:Hp; [|vm_compute in Hp; discriminate].
  assert (Hin : in_cycle p = true) by (vm_compute in Hp; injection Hp as <-; reflexivity).
  assert (Hb : (budget p <= resumptions 1 evs)%nat).
  { vm_compute in Hp. injection Hp as <-. vm_compute. lia. }
  split; [exists p; auto|].
  exact (held_lock_is_released evs sys 1%nat p Hc Hp Hin Hb).
Defined.

(** X23. While the lock is held, what runs beside the cycle changes
    nothing that the cycle reads: a message handler that starts leaves the
    client as it was, whatever the message, and a task that is in no cycle
    leaves the client as it was or, for the proactivity loop, only draws a
    new deadline. *)
Theorem held_lock_freezes_the_client `{CT : CaseTables}
    (self : KirgClient) (env : readings) (cycle : nat) :
  processing_lock self = true ->
  (forall message, after (on_message self message env cycle) = self)
  /\ (forall p, in_cycle p = false ->
        after (resume self p env cycle) = self
        \/ after (resume self p env cycle) = _schedule_next_proactivity self env).
Proof.
  intros Hl. split.
  - intros message. unfold on_message.
    destruct (user_id (author message) =? user_id (user self))%Z; [reflexivity|].
    destruct (guild message).
    + destruct (negb _); [reflexivity|]. now rewrite Hl.
    + unfold _handle_dm. now rewrite Hl.
  - intros p Hp. destruct p; cbn [in_cycle] in Hp; try discriminate; cbn [resume].
    + now left.
    + unfold tick.
      destruct (target_channel_id self) as [target|]; [|now left].
      destruct (target =? 0)%Z; [now left|].
      destruct (negb _); [|now left].
      destruct (last_was_mine self target); [now right|].
      rewrite Hl. now right.
    + left. unfold after_reading_delay. rewrite Hl. now destruct (token_differs _ _ _).
    + left. unfold _handle_dm. now rewrite Hl.
Qed.

Lemma held_lock_freezes_the_client_witness :
  let held := set_processing_lock Sample.client0 true in
  processing_lock held = true
  /\ after (on_message held (Sample.said (lit "oi")) (Sample.at_time 1) O) = held.
Proof.
  intros held. split; [reflexivity|].
  exact (proj1 (held_lock_freezes_the_client held (Sample.at_time 1) O eq_refl)
           (Sample.said (lit "oi"))).
Defined.

Section Deliveries.
Context `{CT : CaseTables}.

Lemma format_mentions_known (a b : KirgClient) (text : str) :
  known_users a = known_users b -> _format_mentions a text = _format_mentions b text.
Proof.
  intros E. unfold _format_mentions, sorted_names, mention_step. now rewrite E.
Qed.

Lemma drive_out (self : KirgClient) (p : pc) (envs : list readings) :
  in_cycle p = false -> drive self p envs = {| after := self; next := p; output := [] |}.
Proof. intros H. destruct envs; cbn [drive]; [|rewrite H]; reflexivity. Qed.

Lemma leave_cycle_known (self : KirgClient) kind env :
  known_users (after (leave_cycle self kind env)) = known_users self.
Proof. now destruct kind. Qed.

Lemma skipn_nth_error {A} (l : list A) (i : nat) (x : A) :
  nth_error l i = Some x -> skipn i l = x :: skipn (S i) l.
Proof.
  revert i. induction l as [|y l IH]; intros [|i] H; simpl in *; try discriminate.
  - now injection H as ->.
  - now apply IH.
Qed.

(** The send loop from the typing delay of the line [sl_i], when every
    line is accepted and the memory exists. *)
Lemma drive_sends (n : nat) :
  forall (self : KirgClient) (loop : send_loop) (f : str) (envs : list readings)
         (memory : list (str * str)) (line : str),
    (length (sl_response_list loop) - sl_i loop = S n)%nat ->
    nth_error (sl_response_list loop) (sl_i loop) = Some line ->
    chat_memories self !! sl_memory_id loop = Some memory ->
    Forall (fun env => accepted env = true) envs ->
    (2 * S n <= length envs)%nat ->
    let r := drive self (TypingDelay loop f) envs in
    output r
    = (sl_cycle loop, f)
      :: List.map (fun l => (sl_cycle loop, _format_mentions self l))
           (skipn (S (sl_i loop)) (sl_response_list loop))
    /\ chat_memories (after r) !! sl_memory_id loop
       = Some (fold_left (fun d l => deque_append (sl_my_name loop, l) d)
                 (skipn (sl_i loop) (sl_response_list loop)) memory)
    /\ known_users (after r) = known_users self.
Proof.
  induction n as [|n IH]; intros self loop f envs memory line Hn Hline Hmem Hacc Hlen.
  - (* the last line *)
    destruct envs as [|env envs]; [cbn in Hlen; lia|].
    inversion Hacc as [|? ? Henv Hacc']; subst.
    cbn [drive in_cycle resume]. unfold deliver. rewrite Henv, Hmem, Hline.
    assert (Hlast : (sl_i loop <? length (sl_response_list loop) - 1)%nat = false)
      by (apply Nat.ltb_ge; lia).
    rewrite Hlast.
    set (self1 := remember self (sl_memory_id loop) (sl_my_name loop, line)).
    pose proof (loop_head_next self1 (next_line loop) env) as Hhead.
    assert (Hnone : nth_error (sl_response_list (next_line loop)) (sl_i (next_line loop))
                    = None).
    { cbn [next_line sl_response_list sl_i]. apply nth_error_None. lia. }
    rewrite Hnone in Hhead. destruct Hhead as (Hout & _ & Hnil).
    cbn [after next output]. rewrite (drive_out _ _ envs Hout). cbn [after next output].
    unfold loop_head. rewrite Hnone.
    rewrite (skipn_nth_error _ _ _ Hline).
    assert (Hrest : skipn (S (sl_i loop)) (sl_response_list loop) = []).
    { apply List.skipn_all2. lia. }
    rewrite Hrest. cbn [List.map fold_left app].
    split; [destruct (sl_kind loop); reflexivity|].
    rewrite leave_cycle_memory, leave_cycle_known. subst self1.
    unfold remember, memory_of. cbn [chat_memories set_chat_memories known_users].
    rewrite Hmem, lookup_insert_eq. auto.
  - (* a line followed by others *)
    destruct envs as [|env [|env2 envs]]; [cbn in Hlen; lia | cbn in Hlen; lia |].
    inversion Hacc as [|? ? Henv Hacc']; subst.
    inversion Hacc' as [|? ? Henv2 Hacc'']; subst.
    cbn [drive in_cycle resume]. unfold deliver. rewrite Henv, Hmem, Hline.
    assert (Hmore : (sl_i loop <? length (sl_response_list loop) - 1)%nat = true)
      by (apply Nat.ltb_lt; lia).
    rewrite Hmore. cbn [after next output in_cycle resume].
    set (self1 := remember self (sl_memory_id loop) (sl_my_name loop, line)).
    destruct (nth_error (sl_response_list loop) (S (sl_i loop))) as [line'|] eqn:Hline';
      [|apply nth_error_None in Hline'; lia].
    pose proof (loop_head_next self1 (next_line loop) env2) as Hhead.
    cbn [next_line sl_response_list sl_i] in Hhead. rewrite Hline' in Hhead.
    rewrite Hhead. cbn [after next output app].
    assert (Hmem1 : chat_memories self1 !! sl_memory_id (next_line loop)
                    = Some (deque_append (sl_my_name loop, line) memory)).
    { subst self1. unfold remember, memory_of.
      cbn [chat_memories set_chat_memories next_line sl_memory_id].
      now rewrite Hmem, lookup_insert_eq. }
    destruct (IH self1 (next_line loop) (_format_mentions self1 line') envs
                (deque_append (sl_my_name loop, line) memory) line') as (Ho & Hm & Hk).
    + cbn. lia.
    + exact Hline'.
    + exact Hmem1.
    + exact Hacc''.
    + cbn [length] in Hlen. lia.
    + cbn [next_line sl_cycle sl_i sl_response_list sl_memory_id sl_my_name] in Ho, Hm.
      assert (Hf : forall l, _format_mentions self1 l = _format_mentions self l)
        by (intros l; now apply format_mentions_known).
      rewrite Ho, Hm, Hk.
      rewrite (skipn_nth_error _ _ _ Hline), (skipn_nth_error _ _ _ Hline').
      cbn [List.map fold_left]. rewrite !Hf.
      rewrite (List.map_ext (fun l => (sl_cycle loop, _format_mentions self1 l))
                 (fun l => (sl_cycle loop, _format_mentions self l)))
        by (intros l; now rewrite Hf).
      auto.
Qed.

End Deliveries.

(** X15. When every line is accepted and the memory of the conversation
    exists, the send loop delivers the lines of the response in their
    order, each with its mentions resolved, and appends the lines as they
    were before the resolution to the memory, in the same order, under the
    bot's name. *)
Theorem send_loop_delivers_in_order `{CT : CaseTables}
    (self : KirgClient) (loop : send_loop) (envs : list readings)
    (memory : list (str * str)) (line : str) (lines : list str) :
  sl_response_list loop = line :: lines ->
  sl_i loop = O ->
  chat_memories self !! sl_memory_id loop = Some memory ->
  Forall (fun env => accepted env = true) envs ->
  (2 * length (line :: lines) <= length envs)%nat ->
  let r := drive self (TypingDelay loop (_format_mentions self line)) envs in
  output r
  = List.map (fun l => (sl_cycle loop, _format_mentions self l)) (line :: lines)
  /\ chat_memories (after r) !! sl_memory_id loop
     = Some (fold_left (fun d l => deque_append (sl_my_name loop, l) d) (line :: lines) memory).
Proof.
  intros Hlist Hi Hmem Hacc Hlen r.
  destruct (drive_sends (length lines) self loop (_format_mentions self line) envs memory line)
    as (Ho & Hm & _).
  - rewrite Hlist, Hi. cbn [length]. lia.
  - now rewrite Hlist, Hi.
  - exact Hmem.
  - exact Hacc.
  - exact Hlen.
  - subst r. rewrite Ho, Hm, Hlist, Hi. split; reflexivity.
Qed.

Lemma send_loop_delivers_in_order_witness :
  let self := remember Sample.client0 (ChannelKey 7) (lit "Ana", lit "oi") in
  let loop := {| sl_kind := Reactive; sl_cycle := 3; sl_response_list := [lit "oi ian"; lit "slk"];
                 sl_i := O; sl_my_name := lit "Ian"; sl_memory_id := ChannelKey 7;
                 sl_reply_to := false |} in
  let envs := List.repeat (Sample.at_time 5) 4 in
  Forall (fun env => accepted env = true) envs
  /\ output (drive self (TypingDelay loop (_format_mentions self (lit "oi ian"))) envs)
     = [(3%nat, lit "oi @U1"); (3%nat, lit "slk")].
Proof.
  intros self loop envs.
  assert (Hacc : Forall (fun env => accepted env = true) envs)
    by (repeat constructor).
  split; [exact Hacc|].
  assert (Hlen : (2 * length [lit "oi ian"; lit "slk"] <= length envs)%nat)
    by (vm_compute; lia).
  rewrite (proj1 (send_loop_delivers_in_order self loop envs [(lit "Ana", lit "oi")]
                    (lit "oi ian") [lit "slk"] eq_refl eq_refl eq_refl Hacc Hlen)).
  vm_compute. reflexivity.
Defined.

(** X16. A line the gateway refuses is not recorded, and a line whose
    conversation has no memory is delivered but not recorded; in both cases
    the send loop goes on with the next line without the pause between
    messages, and ends the cycle when there is none. *)
Theorem failed_line_is_skipped `{CT : CaseTables}
    (self : KirgClient) (loop : send_loop) (formatted_line : str) (env : readings) :
  accepted env = false \/ chat_memories self !! sl_memory_id loop = None ->
  let r := deliver self loop formatted_line env in
  chat_memories (after r) = chat_memories self
  /\ output r = (if accepted env then [(sl_cycle loop, formatted_line)] else [])
  /\ (forall line',
        nth_error (sl_response_list loop) (S (sl_i loop)) = Some line' ->
        next r = TypingDelay (next_line loop) (_format_mentions self line'))
  /\ (nth_error (sl_response_list loop) (S (sl_i loop)) = None ->
      in_cycle (next r) = false /\ processing_lock (after r) = false).
Proof.
  intros H r.
  pose proof (loop_head_next self (next_line loop) env) as Hhead.
  cbn [next_line sl_response_list sl_i] in Hhead.
  assert (Hnil : output (loop_head self (next_line loop) env) = []).
  { unfold loop_head. destruct (nth_error _ _); [reflexivity | apply leave_cycle_spec]. }
  assert (E : after r = after (loop_head self (next_line loop) env)
              /\ next r = next (loop_head self (next_line loop) env)
              /\ output r = (if accepted env then [(sl_cycle loop, formatted_line)] else [])).
  { subst r. unfold deliver. destruct H as [H|H].
    - rewrite H. repeat split; try reflexivity; exact Hnil.
    - rewrite H. destruct (accepted env); repeat split; try reflexivity; exact Hnil. }
  destruct E as (Ea & En & Eo). rewrite Ea, En, Eo.
  split; [apply loop_head_memory|]. split; [reflexivity|].
  destruct (nth_error (sl_response_list loop) (S (sl_i loop))) as [line'|].
  - rewrite Hhead. cbn [next]. split; [now intros ? [= <-] | discriminate].
  - destruct Hhead as (Hout & Hlock & _). split; [discriminate | auto].
Qed.

Lemma failed_line_is_skipped_witness :
  let loop := {| sl_kind := Reactive; sl_cycle := 3; sl_response_list := [lit "oi"; lit "slk"];
                 sl_i := O; sl_my_name := lit "Ian"; sl_memory_id := ChannelKey 7;
                 sl_reply_to := false |} in
  chat_memories Sample.client0 !! sl_memory_id loop = None
  /\ output (deliver Sample.client0 loop (lit "oi") (Sample.at_time 5)) = [(3%nat, lit "oi")]
  /\ chat_memories (after (deliver Sample.client0 loop (lit "oi") (Sample.at_time 5)))
     = chat_memories Sample.client0.
Proof.
  intros loop.
  assert (H : chat_memories Sample.client0 !! sl_memory_id loop = None) by reflexivity.
  destruct (failed_line_is_skipped Sample.client0 loop (lit "oi") (Sample.at_time 5)
              (or_intror H)) as (Hm & Ho & _).
  split; [exact H|]. split; [exact Ho | exact Hm].
Defined.

(** X17. The proactivity loop runs its cycle under the bot's display name
    and on the memory of the followed channel; once such a cycle has
    recorded a line, that line is the last entry and is the bot's own, so
    that no turn of the loop starts a cycle until someone else is
    recorded. *)
Theorem proactive_line_holds_the_loop_back `{CT : CaseTables}
    (self : KirgClient) (target : Z) (me : User) :
  target_channel_id self = Some target ->
  me_user self = Some me ->
  (forall env cycle,
      in_cycle (next (tick self env cycle)) = true ->
      exists history_list,
        next (tick self env cycle)
        = Deciding Proactive cycle history_list (display_name me) false
            (ChannelKey target) false)
  /\ (forall loop formatted_line env memory line,
        sl_my_name loop = display_name me ->
        sl_memory_id loop = ChannelKey target ->
        accepted env = true ->
        chat_memories self !! ChannelKey target = Some memory ->
        nth_error (sl_response_list loop) (sl_i loop) = Some line ->
        let self' := after (deliver self loop formatted_line env) in
        last_was_mine self' target = true
        /\ forall env' cycle', in_cycle (next (tick self' env' cycle')) = false).
Proof.
  intros Ht Hme. split.
  - intros env cycle. unfold tick. rewrite Ht.
    destruct (target =? 0)%Z; [discriminate|].
    destruct (negb _); [|discriminate].
    destruct (last_was_mine self target); [discriminate|].
    destruct (processing_lock self); [discriminate|].
    destruct (channel_found env); [|now rewrite leave_cycle_out].
    cbn [me_user set_processing_lock]. rewrite Hme. intros _. eauto.
  - intros loop f env memory line Hname Hkey Hacc Hmem Hline self'.
    assert (E : chat_memories self'
                = <[ChannelKey target := deque_append (display_name me, line) memory]>
                    (chat_memories self)
                /\ me_user self' = Some me /\ target_channel_id self' = Some target).
    { subst self'. unfold deliver. rewrite Hacc, Hkey, Hmem, Hline, Hname.
      set (self1 := remember self (ChannelKey target) (display_name me, line)).
      assert (E1 : chat_memories self1
                   = <[ChannelKey target := deque_append (display_name me, line) memory]>
                       (chat_memories self)).
      { subst self1. unfold remember, memory_of. cbn. now rewrite Hmem. }
      destruct (sl_i loop <? length (sl_response_list loop) - 1)%nat; cbn [after].
      - split; [exact E1|]. split; [exact Hme | exact Ht].
      - rewrite loop_head_memory. split; [exact E1|].
        unfold loop_head.
        destruct (nth_error (sl_response_list (next_line loop)) (sl_i (next_line loop)));
          [split; [exact Hme | exact Ht]|].
        destruct (sl_kind (next_line loop)); (split; [exact Hme | exact Ht]). }
    destruct E as (Em & Eme & Etar).
    assert (Hmine : last_was_mine self' target = true).
    { unfold last_was_mine. rewrite Em, lookup_insert_eq, deque_append_last, Eme.
      apply str_eqb_refl. }
    split; [exact Hmine|]. intros env' cycle'. unfold tick. rewrite Etar.
    destruct (target =? 0)%Z; [reflexivity|].
    destruct (negb _); [|reflexivity]. now rewrite Hmine.
Qed.

Lemma proactive_line_holds_the_loop_back_witness :
  let self := remember Sample.client0 (ChannelKey 7) (lit "Ana", lit "oi") in
  let loop := {| sl_kind := Proactive; sl_cycle := 3; sl_response_list := [lit "slk que sono"];
                 sl_i := O; sl_my_name := lit "Ian"; sl_memory_id := ChannelKey 7;
                 sl_reply_to := false |} in
  me_user self = Some Sample.kirg_user
  /\ last_was_mine (after (deliver self loop (lit "slk que sono") (Sample.at_time 5))) 7 = true.
Proof.
  intros self loop. split; [reflexivity|].
  exact (proj1 (proj2 (proactive_line_holds_the_loop_back self 7 Sample.kirg_user
                         eq_refl eq_refl)
                 loop (lit "slk que sono") (Sample.at_time 5) [(lit "Ana", lit "oi")]
                 (lit "slk que sono") eq_refl eq_refl eq_refl eq_refl eq_refl)).
Defined.

(** ** main.py: [preload_history] *)

(** [preload_history].  [fetched] is the guild of the channel and what
    [channel.history(limit=HISTORY_LIMIT)] yields, newest message first;
    it is [None] when the channel is not found or the fetch raises, in
    which case the exception is caught and nothing is changed. *)
Definition preload_history `{CT : CaseTables} (self : KirgClient) (channel_id : Z)
    (fetched : option (option Guild * list Message)) : KirgClient :=
  match fetched with
  | None => self
  | Some (guild, history) =>
      let self :=
        set_chat_memories self (<[ChannelKey channel_id := []]> (chat_memories self)) in
      fold_left
        (fun self msg =>
           let '(self, real_name) := get_real_name self (author msg) guild in
           remember self (ChannelKey channel_id) (real_name, content msg))
        (rev history) self
  end.

(** The name [get_real_name] returns: the nickname of the member when it
    has one, the display name of the author otherwise. *)
Definition real_name (author : User) (guild : option Guild) : str :=
  match guild with
  | Some g =>
      match nick (match get_member g (user_id author) with
                  | Some m => m
                  | None => author
                  end) with
      | Some n => if is_empty n then display_name author else n
      | None => display_name author
      end
  | None => display_name author
  end.

(** The last [n] elements of a list. *)
Definition keep_last {A} (n : nat) (l : list A) : list A := skipn (length l - n) l.

Lemma keep_last_app {A} (n : nat) (a b : list A) :
  keep_last n (keep_last n a ++ b) = keep_last n (a ++ b).
Proof.
  unfold keep_last. destruct (le_lt_dec (length a) n) as [H|H].
  - replace (length a - n)%nat with O by lia. reflexivity.
  - rewrite !length_app, List.length_skipn.
    replace (length a - (length a - n) + length b - n)%nat with (length b) by lia.
    replace (length a + length b - n)%nat with (length b + (length a - n))%nat by lia.
    rewrite <- List.skipn_skipn. f_equal.
    rewrite List.skipn_app.
    replace (length a - n - length a)%nat with O by lia. reflexivity.
Qed.

Lemma deque_append_keep_last {A} (x : A) (d : list A) :
  deque_append x d = keep_last HISTORY_LIMIT (d ++ [x]).
Proof. reflexivity. Qed.

Lemma appends_keep_last {A} (l : list A) :
  forall d, fold_left (fun d x => deque_append x d) l (keep_last HISTORY_LIMIT d)
            = keep_last HISTORY_LIMIT (d ++ l).
Proof.
  induction l as [|x l IH]; intros d; simpl.
  - now rewrite app_nil_r.
  - rewrite deque_append_keep_last, keep_last_app, IH, <- app_assoc. reflexivity.
Qed.

Section Preload.
Context `{CT : CaseTables}.

Lemma get_real_name_snd (self : KirgClient) (a : User) (g : option Guild) :
  snd (get_real_name self a g) = real_name a g.
Proof.
  unfold get_real_name, real_name. destruct g as [g|]; [|reflexivity].
  destruct (nick _) as [n|]; [destruct (is_empty n)|]; reflexivity.
Qed.

Lemma preload_steps (channel_id : Z) (guild : option Guild) (msgs : list Message) :
  forall (self : KirgClient) (d : list (str * str)),
    chat_memories self !! ChannelKey channel_id = Some d ->
    let self' :=
      fold_left
        (fun self msg =>
           let '(self, real_name) := get_real_name self (author msg) guild in
           remember self (ChannelKey channel_id) (real_name, content msg))
        msgs self in
    chat_memories self' !! ChannelKey channel_id
    = Some (fold_left (fun d e => deque_append e d)
              (List.map (fun msg => (real_name (author msg) guild, content msg)) msgs) d)
    /\ (forall other, other <> ChannelKey channel_id ->
          chat_memories self' !! other = chat_memories self !! other)
    /\ processing_lock self' = processing_lock self.
Proof.
  induction msgs as [|msg msgs IH]; intros self d Hd; cbn [fold_left List.map].
  - auto.
  - pose proof (get_real_name_snd self (author msg) guild) as Hn.
    destruct (get_real_name_shape self (author msg) guild) as [ks Hs].
    destruct (get_real_name self (author msg) guild) as [s n]. cbn [fst snd] in *.
    subst s n.
    set (self1 := remember (set_known_users self ks) (ChannelKey channel_id)
                    (real_name (author msg) guild, content msg)).
    assert (H1 : chat_memories self1
                 = <[ChannelKey channel_id
                      := deque_append (real_name (author msg) guild, content msg) d]>
                     (chat_memories self)).
    { subst self1. unfold remember, memory_of. cbn. now rewrite Hd. }
    destruct (IH self1 (deque_append (real_name (author msg) guild, content msg) d))
      as (Hm & Ho & Hl).
    { rewrite H1. apply lookup_insert_eq. }
    split; [exact Hm|]. split.
    + intros other Hne. rewrite (Ho other Hne), H1. apply lookup_insert_ne. congruence.
    + rewrite Hl. reflexivity.
Qed.

End Preload.

(** X18. After a successful preload the memory of the channel holds the
    fetched messages from the oldest to the newest, the last twelve of
    them at most, each under the name [get_real_name] gives its author and
    with its text as it was sent; what the memory held before is gone, the
    other memories and the lock are as before.  A preload that fails
    changes nothing. *)
Theorem preload_fills_the_memory `{CT : CaseTables}
    (self : KirgClient) (channel_id : Z) (guild : option Guild) (history : list Message) :
  let self' := preload_history self channel_id (Some (guild, history)) in
  chat_memories self' !! ChannelKey channel_id
  = Some (keep_last HISTORY_LIMIT
            (List.map (fun msg => (real_name (author msg) guild, content msg))
               (rev history)))
  /\ (forall other, other <> ChannelKey channel_id ->
        chat_memories self' !! other = chat_memories self !! other)
  /\ processing_lock self' = processing_lock self
  /\ preload_history self channel_id None = self.
Proof.
  intros self'. subst self'. unfold preload_history.
  set (self0 := set_chat_memories self (<[ChannelKey channel_id := []]> (chat_memories self))).
  destruct (preload_steps channel_id guild (rev history) self0 [])
    as (Hm & Ho & Hl).
  { subst self0. cbn. apply lookup_insert_eq. }
  split; [|split; [|split]].
  - rewrite Hm. f_equal.
    change (@nil (str * str)) with (keep_last HISTORY_LIMIT (@nil (str * str))).
    now rewrite appends_keep_last.
  - intros other Hne. rewrite (Ho other Hne). subst self0. cbn.
    apply lookup_insert_ne. congruence.
  - exact Hl.
  - reflexivity.
Qed.

Lemma preload_fills_the_memory_example :
  memory_of
    (preload_history Sample.client0 7
       (Some (Some Sample.server, [Sample.said (lit "tudo bem?"); Sample.said (lit "oi")])))
    (ChannelKey 7)
  = [(lit "Ana", lit "oi"); (lit "Ana", lit "tudo bem?")].
Proof.
  unfold memory_of.
  rewrite (proj1 (preload_fills_the_memory Sample.client0 7 (Some Sample.server)
                    [Sample.said (lit "tudo bem?"); Sample.said (lit "oi")])).
  vm_compute. reflexivity.
Defined.

(** ** main.py: further facts on mentions and messages *)

Lemma dict_get_In (k : str) (d : list (str * str)) :
  In k (List.map fst d) -> exists v, dict_get k d = Some v /\ In (k, v) d.
Proof.
  induction d as [|[k' v'] d IH]; simpl; [intros []|].
  destruct (str_eqb k k') eqn:E.
  - apply str_eqb_eq in E. subst k'. intros _. exists v'. auto.
  - intros [H|H]; [apply str_eqb_neq in E; congruence|].
    destruct (IH H) as (v & Hv & Hin). exists v. auto.
Qed.

(** X19. Every name [_format_mentions] tries is a key of [known_users]:
    the lookup of its mention never misses. *)
Theorem tried_names_are_known `{CT : CaseTables} (self : KirgClient) (name : str) :
  In name (sorted_names self) ->
  exists mention,
    dict_get name (known_users self) = Some mention
    /\ In (name, mention) (known_users self).
Proof.
  intros H. apply dict_get_In.
  eapply Permutation_in; [apply sorted_by_len_perm | exact H].
Qed.

Lemma tried_names_are_known_witness :
  In (lit "ian") (sorted_names Sample.client0)
  /\ exists mention, dict_get (lit "ian") (known_users Sample.client0) = Some mention
                     /\ In (lit "ian", mention) (known_users Sample.client0).
Proof.
  assert (H : In (lit "ian") (sorted_names Sample.client0)) by (vm_compute; tauto).
  split; [exact H|].
  exact (tried_names_are_known Sample.client0 (lit "ian") H).
Defined.

Lemma contains_tail (p : str) (c : char) (s : str) :
  contains p (c :: s) = false -> starts_with p (c :: s) = false /\ contains p s = false.
Proof. cbn [contains]. intros H. now apply orb_false_iff in H. Qed.

Lemma replace_absent (old new s : str) :
  contains old s = false -> replace old new s = s.
Proof.
  unfold replace. induction s as [|c s IH]; intros H; [reflexivity|].
  destruct (contains_tail old c s H) as [Hs Ht].
  cbn [replace_from]. rewrite Hs. now rewrite (IH Ht).
Qed.

(** X20. A message of the followed channel that does not hold the bot's
    own mention token is recorded, when the lock is free, with its text as
    it was sent, under the name [get_real_name] gives its author. *)
Theorem plain_message_recorded_verbatim `{CT : CaseTables}
    (self : KirgClient) (message : Message) (env : readings) (cycle : nat) (g : Guild) :
  user_id (author message) <> user_id (user self) ->
  guild message = Some g ->
  target_channel_id self = Some (channel_id message) ->
  processing_lock self = false ->
  contains (mention_of_id (user_id (user self))) (content message) = false ->
  last (memory_of (after (on_message self message env cycle))
          (ChannelKey (channel_id message)))
  = Some (real_name (author message) (guild message), content message).
Proof.
  intros Hid Hg Ht Hl Hc.
  destruct (on_message_recording self message env cycle g Hid Hg Ht Hl) as (Hm & _).
  unfold memory_of at 1. rewrite Hm, lookup_insert_eq.
  etransitivity; [apply deque_append_last|]. unfold recorded_entry.
  now rewrite get_real_name_snd, (replace_absent _ _ _ Hc).
Qed.

Lemma plain_message_recorded_verbatim_witness :
  contains (mention_of_id (user_id (user Sample.client0))) (content (Sample.said (lit "oi")))
  = false
  /\ last (memory_of (after (on_message Sample.client0 (Sample.said (lit "oi"))
                              (Sample.at_time 1) O)) (ChannelKey 7))
     = Some (lit "Ana", lit "oi").
Proof.
  split; [reflexivity|].
  assert (Hid : user_id (author (Sample.said (lit "oi"))) <> user_id (user Sample.client0))
    by (vm_compute; discriminate).
  exact (plain_message_recorded_verbatim Sample.client0 (Sample.said (lit "oi"))
           (Sample.at_time 1) O Sample.server Hid eq_refl eq_refl eq_refl eq_refl).
Defined.

(** X21. A private message of another user is never dropped: its handler
    is queued on the lock or holds it.  While the lock is held the handler
    stays queued and the client is untouched.  Whenever the handler, on
    arrival or when resumed from the queue, has taken the lock, the lock
    was free before, the message is recorded under the author's user name
    in the memory of that author, and after its delay the handler asks for
    a decision in direct mode, as Ian, that replies to the message. *)
Theorem private_message_is_queued_or_served `{CT : CaseTables}
    (self : KirgClient) (message : Message) (env : readings) (cycle : nat) :
  user_id (author message) <> user_id (user self) ->
  guild message = None ->
  let key := DmKey (user_id (author message)) in
  (next (on_message self message env cycle) = LockQueue message
   \/ next (on_message self message env cycle) = DmDelay cycle message)
  /\ (processing_lock self = true ->
      on_message self message env cycle
      = {| after := self; next := LockQueue message; output := [] |}
      /\ resume self (LockQueue message) env cycle
         = {| after := self; next := LockQueue message; output := [] |})
  /\ (forall r,
        r = on_message self message env cycle
        \/ r = resume self (LockQueue message) env cycle ->
        in_cycle (next r) = true ->
        processing_lock self = false
        /\ processing_lock (after r) = true
        /\ next r = DmDelay cycle message
        /\ last (memory_of (after r) key) = Some (user_name (author message), content message)
        /\ resume (after r) (next r) env cycle
           = {| after := after r;
                next := Deciding Direct cycle (memory_of (after r) key) (lit "Ian") true
                          key true;
                output := [] |}).
Proof.
  intros Hid Hg key. apply Z.eqb_neq in Hid.
  assert (E : on_message self message env cycle = _handle_dm self message cycle).
  { unfold on_message. now rewrite Hid, Hg. }
  split; [|split].
  - rewrite E. unfold _handle_dm. destruct (processing_lock self); [now left | now right].
  - intros Hl. rewrite E. cbn [resume]. unfold _handle_dm. now rewrite Hl.
  - intros r Hr. assert (Er : r = _handle_dm self message cycle).
    { destruct Hr as [->| ->]; [exact E | reflexivity]. }
    subst r. unfold _handle_dm.
    destruct (processing_lock self) eqn:Hl; [discriminate|]. intros _.
    unfold handle_dm_locked. cbn [after next resume].
    repeat split.
    unfold memory_of at 1, remember. cbn [chat_memories set_chat_memories].
    rewrite lookup_insert_eq. cbn [default]. apply deque_append_last.
Qed.

Lemma private_message_is_queued_or_served_witness :
  let dm := {| author := Sample.ana; guild := None; channel_id := 99%Z; content := lit "oi";
               mentioned := false; reference_author := None |} in
  guild dm = None
  /\ next (on_message (set_processing_lock Sample.client0 true) dm (Sample.at_time 1) O)
     = LockQueue dm
  /\ in_cycle (next (on_message Sample.client0 dm (Sample.at_time 1) O)) = true
  /\ last (memory_of (after (on_message Sample.client0 dm (Sample.at_time 1) O)) (DmKey 2))
     = Some (lit "ana", lit "oi").
Proof.
  intros dm. split; [reflexivity|].
  assert (Hid : user_id (author dm) <> user_id (user (set_processing_lock Sample.client0 true)))
    by (vm_compute; discriminate).
  assert (Hid' : user_id (author dm) <> user_id (user Sample.client0))
    by (vm_compute; discriminate).
  assert (Hin : in_cycle (next (on_message Sample.client0 dm (Sample.at_time 1) O)) = true)
    by (vm_compute; reflexivity).
  destruct (private_message_is_queued_or_served (set_processing_lock Sample.client0 true) dm
              (Sample.at_time 1) O Hid eq_refl) as (_ & H & _).
  destruct (private_message_is_queued_or_served Sample.client0 dm
              (Sample.at_time 1) O Hid' eq_refl) as (_ & _ & H').
  destruct (H' _ (or_introl eq_refl) Hin) as (_ & _ & _ & Hlast & _).
  split; [now rewrite (proj1 (H eq_refl))|].
  split; [exact Hin | exact Hlast].
Defined.

(** ** brain.py: answers without tags *)

Lemma no_open_tag_no_span `{CT : CaseTables} (c : char) (s : str) :
  sre_ignore 60 c = false -> think_span (c :: s) = None.
Proof.
  intros H. unfold think_span, tag_span.
  change (lit "<") with [60]. cbn [match_ignorecase]. now rewrite H.
Qed.

(** X22. An answer in which no character is taken for an opening angle
    bracket holds no think-tag span: the removal of the spans returns it
    as it is. *)
Theorem tag_free_answer_unchanged `{CT : CaseTables} (s : str) :
  (forall c, In c s -> sre_ignore 60 c = false) ->
  sub_think s = s.
Proof.
  unfold sub_think. induction s as [|c s IH]; intros H; [reflexivity|].
  cbn [sub_think_from]. rewrite (no_open_tag_no_span c s) by (apply H; now left).
  rewrite IH; [reflexivity|]. intros c' Hc'. apply H. now right.
Qed.

Lemma tag_free_answer_unchanged_witness :
  (forall c, In c (lit "oi gente") -> sre_ignore 60 c = false)
  /\ sub_think (lit "oi gente") = lit "oi gente".
Proof.
  assert (H : forall c, In c (lit "oi gente") -> sre_ignore 60 c = false).
  { intros c Hc. vm_compute in Hc.
    repeat (destruct Hc as [<-|Hc]; [vm_compute; reflexivity|]). destruct Hc. }
  split; [exact H|].
  exact (tag_free_answer_unchanged (lit "oi gente") H).
Defined.
